(** * rawkv: the raw key-value client of client-go

    A shallow embedding of [rawkv/rawkv.go].  The client drives three
    collaborators that live outside the file (the placement-driver client,
    the region cache with its request sender, and the retry back-offer).
    They are kept abstract behind the [Backend] interface; every call that
    crosses that interface is recorded in a trace, so that statements such
    as "no RPC is performed" or "one back-off per region error" can be read
    off the trace. *)

From Stdlib Require Import ZArith List Strings.Byte.
From stdpp Require Import base option list gmap strings.

Open Scope Z_scope.

(** ** Byte strings *)

(** A Go [[]byte].  The nil slice and the empty slice are identified: the
    code only looks at keys and values through [len], [bytes.Equal],
    [bytes.Compare] and [string(...)], none of which tells them apart.  The
    one place that tests [== nil] ([CompareAndSwap]) takes an [option]. *)
Definition bytes := list byte.

#[global] Instance byte_eq_dec : EqDecision byte := Byte.byte_eq_dec.

#[global] Program Instance byte_countable : Countable byte :=
  inj_countable Byte.to_N Byte.of_N _.
Next Obligation. intros b. apply Byte.of_to_N. Qed.

(** Go's [len], an [int]. *)
Definition len {A} (l : list A) : Z := Z.of_nat (length l).

(** [bytes.Compare]: lexicographic order on unsigned bytes, as -1, 0, 1. *)
Fixpoint bytes_Compare (a b : bytes) : Z :=
  match a, b with
  | [], [] => 0
  | [], _ :: _ => -1
  | _ :: _, [] => 1
  | x :: a', y :: b' =>
      match N.compare (Byte.to_N x) (Byte.to_N y) with
      | Lt => -1
      | Gt => 1
      | Eq => bytes_Compare a' b'
      end
  end.

(** [bytes.Equal]. *)
Definition bytes_Equal (a b : bytes) : bool := bool_decide (a = b).

(** [uint32(x)] of an [int]: truncation to 32 bits. *)
Definition uint32 (x : Z) : Z := x mod 2 ^ 32.

Definition B (s : string) : bytes := String.list_byte_of_string s.

(** ** Errors *)

Inductive Error : Type :=
| ErrMaxScanLimitExceeded            (* rawkv.ErrMaxScanLimitExceeded *)
| ErrBodyMissing                     (* tikverr.ErrBodyMissing *)
| errors_New (msg : string)          (* errors.New(msg) *)
| errors_WithStack (e : Error).      (* errors.WithStack(e) *)

(** A Go [(v, err)] pair in which exactly one side is set. *)
Inductive Result (A : Type) : Type :=
| Ok (a : A)
| Err (e : Error).
Arguments Ok {A} a.
Arguments Err {A} e.

(** [MaxRawKVScanLimit] and [rawkvMaxBackoff]. *)
Definition MaxRawKVScanLimit : Z := 10240.
Definition rawkvMaxBackoff : Z := 20000.
(** [rawBatchPutSize] and [rawBatchPairCount]. *)
Definition rawBatchPutSize : Z := 16 * 1024.
Definition rawBatchPairCount : Z := 512.

(** ** Regions, requests and responses *)

(** [locate.RegionVerID]; its zero value is [zeroRegion]. *)
Record RegionVerID := { regionId : N; confVer : N; ver : N }.
Definition zeroRegion : RegionVerID := {| regionId := 0; confVer := 0; ver := 0 |}.

(** [locate.KeyLocation]. *)
Record KeyLocation := { Region : RegionVerID; StartKey : bytes; EndKey : bytes }.
Definition zeroKeyLocation : KeyLocation :=
  {| Region := zeroRegion; StartKey := []; EndKey := [] |}.

(** [errorpb.Error], of which the client only uses [String()]. *)
Record RegionError := { RegionError_String : string }.

Record KvPair := { Key : bytes; Value : bytes }.

Inductive CmdType :=
| CmdRawGet | CmdRawBatchGet | CmdRawPut | CmdRawBatchPut | CmdRawDelete
| CmdRawBatchDelete | CmdRawDeleteRange | CmdRawScan | CmdGetKeyTTL
| CmdRawCompareAndSwap.

#[global] Instance CmdType_eq_dec : EqDecision CmdType.
Proof. solve_decision. Defined.

(** The [kvrpcpb] request messages the client builds. *)
Inductive ReqBody :=
| RawPutRequest (key value : bytes) (ttl : N) (forCas : bool)
| RawDeleteRangeRequest (startKey endKey : bytes)
| RawScanRequest (startKey endKey : bytes) (limit : Z) (reverse : bool)
| RawCASRequest (key value : bytes) (previousNotExist : bool) (previousValue : bytes)
| RawBatchGetRequest (keys : list bytes)
| RawBatchDeleteRequest (keys : list bytes) (forCas : bool)
| RawBatchPutRequest (pairs : list KvPair) (forCas : bool) (ttls : list N).

(** [tikvrpc.Request]. *)
Record Request := {
  Type_ : CmdType;
  Req : ReqBody;
  MaxExecutionDurationMs : N
}.

(** [tikvrpc.NewRequest]. *)
Definition NewRequest (typ : CmdType) (body : ReqBody) : Request :=
  {| Type_ := typ; Req := body; MaxExecutionDurationMs := 0 |}.

Definition withMaxExecutionDurationMs (d : N) (r : Request) : Request :=
  {| Type_ := Type_ r; Req := Req r; MaxExecutionDurationMs := d |}.

(** The [kvrpcpb] response messages; each carries its region error. *)
Inductive RespBody :=
| RawPutResponse (regionErr : option RegionError) (error : string)
| RawDeleteRangeResponse (regionErr : option RegionError) (error : string)
| RawScanResponse (regionErr : option RegionError) (kvs : list KvPair)
| RawCASResponse (regionErr : option RegionError) (error : string)
    (succeed previousNotExist : bool) (previousValue : bytes)
| RawBatchGetResponse (regionErr : option RegionError) (pairs : list KvPair)
| RawBatchDeleteResponse (regionErr : option RegionError) (error : string)
| RawBatchPutResponse (regionErr : option RegionError) (error : string).

(** [tikvrpc.Response]; [Resp] is an interface value and may be nil. *)
Record Response := { Resp : option RespBody }.

(** [kvrpc.Batch]. *)
Record Batch := {
  RegionID : RegionVerID;
  Keys : list bytes;
  Values : list bytes;
  TTLs : list N
}.

(** [kvrpc.BatchResult]: an embedded [*tikvrpc.Response] and an error. *)
Record BatchResult := { Response_ : option Response; Error_ : option Error }.

(** ** The collaborators *)

(** A [*retry.Backoffer] is a handle into the world. *)
Definition Bo := N.

(** [retry.BoRegionMiss] is the only back-off reason the file uses. *)
Inductive BackoffConfig := BoRegionMiss.

(** Everything the file calls but does not define.  The operations act
    on an abstract world [W]; map iteration order and goroutine completion
    order are decided by the world as well. *)
Class Backend (W : Type) := {
  (* retry *)
  NewBackofferWithVars : Z -> W -> Bo * W;
  Fork : Bo -> W -> Bo * W;
  Cancel : Bo -> W -> W;
  Backoff : Bo -> BackoffConfig -> Error -> W -> option Error * W;
  (* locate.RegionCache *)
  LocateKey : Bo -> bytes -> W -> Result KeyLocation * W;
  LocateEndKey : Bo -> bytes -> W -> Result KeyLocation * W;
  GroupKeysByRegion :
    Bo -> list bytes -> W -> Result (list (RegionVerID * list bytes)) * W;
  cacheClose : W -> W;
  (* locate.RegionRequestSender over client.Client *)
  SendReq : Bo -> Request -> RegionVerID -> N -> W -> Result Response * W;
  rpcClose : W -> option Error * W;
  (* pd.Client *)
  pdClose : W -> W;
  (* tikvrpc.Response.GetRegionError *)
  GetRegionError : Response -> Result (option RegionError);
  (* kvrpc.AppendKeyBatches and kvrpc.AppendBatches *)
  AppendKeyBatches : list Batch -> RegionVerID -> list bytes -> Z -> list Batch;
  AppendBatches :
    list Batch -> RegionVerID -> list bytes ->
    gmap bytes bytes -> gmap bytes N -> Z -> list Batch;
  (* client.ReadTimeoutShort, client.MaxWriteExecutionTime.Milliseconds() *)
  ReadTimeoutShort : N;
  MaxWriteExecutionTimeMs : N;
  (* which of [n] running goroutines delivers its result next *)
  Schedule : nat -> W -> nat * W
}.

(** What crosses the interface. *)
Inductive Event :=
| EvNewBackoffer (maxSleep : Z) (bo : Bo)
| EvFork (parent child : Bo)
| EvCancel (bo : Bo)
| EvBackoff (bo : Bo) (cfg : BackoffConfig) (cause : Error) (res : option Error)
| EvLocateKey (bo : Bo) (key : bytes) (res : Result KeyLocation)
| EvLocateEndKey (bo : Bo) (key : bytes) (res : Result KeyLocation)
| EvGroupKeysByRegion (bo : Bo) (keys : list bytes)
    (res : Result (list (RegionVerID * list bytes)))
| EvSendReq (bo : Bo) (req : Request) (region : RegionVerID) (timeout : N)
    (res : Result Response)
| EvLog (msg : string) (err : Error)
| EvPdClose
| EvCacheClose
| EvRpcClose (res : option Error).

(** ** The client *)

(** [rawkv.Client].  The three sub-components are pointers or interface
    values and may be nil. *)
Record Client := {
  clusterID : N;
  regionCache : option unit;
  pdClient : option unit;
  rpcClient : option unit;
  atomic : bool
}.

Section WithBackend.

Context {W : Type} `{Backend W}.

(** *** State, outcomes and the monad *)

Record State := { world : W; trace : list Event }.

(** A call returns, panics (a failed type assertion, a nil dereference,
    an index out of range) or is still looping when the fuel runs out. *)
Inductive Outcome (A : Type) : Type :=
| Done (a : A) (s : State)
| Panic (s : State)
| OutOfFuel (s : State).
Arguments Done {A} a s.
Arguments Panic {A} s.
Arguments OutOfFuel {A} s.

Definition M (A : Type) : Type := State -> Outcome A.

#[local] Instance M_ret : MRet M := λ A a s, Done a s.
#[local] Instance M_bind : MBind M := λ A B k m s,
  match m s with
  | Done a s' => k a s'
  | Panic s' => Panic s'
  | OutOfFuel s' => OutOfFuel s'
  end.

Definition panic {A} : M A := λ s, Panic s.
Definition out_of_fuel {A} : M A := λ s, OutOfFuel s.

(** A call into the world, recorded in the trace with its result. *)
Definition call {A} (op : W -> A * W) (ev : A -> Event) : M A := λ s,
  let '(a, w) := op (world s) in
  Done a {| world := w; trace := trace s ++ [ev a] |}.

Definition emit (ev : Event) : M unit := λ s,
  Done tt {| world := world s; trace := trace s ++ [ev] |}.

Definition newBackoffer (maxSleep : Z) : M Bo :=
  call (NewBackofferWithVars maxSleep) (EvNewBackoffer maxSleep).
Definition fork (bo : Bo) : M Bo := call (Fork bo) (EvFork bo).
Definition cancel (bo : Bo) : M unit :=
  call (λ w, (tt, Cancel bo w)) (λ _, EvCancel bo).
Definition backoff (bo : Bo) (cfg : BackoffConfig) (cause : Error) : M (option Error) :=
  call (Backoff bo cfg cause) (EvBackoff bo cfg cause).
Definition locateKey (bo : Bo) (key : bytes) : M (Result KeyLocation) :=
  call (LocateKey bo key) (EvLocateKey bo key).
Definition locateEndKey (bo : Bo) (key : bytes) : M (Result KeyLocation) :=
  call (LocateEndKey bo key) (EvLocateEndKey bo key).
Definition groupKeysByRegion (bo : Bo) (keys : list bytes)
  : M (Result (list (RegionVerID * list bytes))) :=
  call (GroupKeysByRegion bo keys) (EvGroupKeysByRegion bo keys).
(** [c.rpcClient.SendReq].  The event records the request the client
    hands over.  [req] is a pointer in the source: what a sender writes
    into the request afterwards is outside this model. *)
Definition senderSendReq (bo : Bo) (req : Request) (region : RegionVerID) (timeout : N)
  : M (Result Response) :=
  call (SendReq bo req region timeout) (EvSendReq bo req region timeout).
Definition logError (msg : string) (err : Error) : M unit := emit (EvLog msg err).

(** *** Close *)

(** [Client.Close]. *)
Definition Close (c : Client) : M (option Error) :=
  _ ← (if pdClient c is Some _
       then call (λ w, (tt, pdClose w)) (λ _, EvPdClose) else mret tt);
  _ ← (if regionCache c is Some _
       then call (λ w, (tt, cacheClose w)) (λ _, EvCacheClose) else mret tt);
  if rpcClient c is Some _ then call rpcClose EvRpcClose else mret None.

(** *** The single-key dispatcher *)

(** The [for { ... }] of [sendReq]; one unit of fuel per iteration. *)
Fixpoint sendReq_loop (fuel : nat) (bo : Bo) (key : bytes) (req : Request)
    (reverse : bool) : M (Result (Response * KeyLocation)) :=
  match fuel with
  | O => out_of_fuel
  | S fuel' =>
      l ← (if reverse then locateEndKey bo key else locateKey bo key);
      match l with
      | Err err => mret (Err err)
      | Ok loc =>
          r ← senderSendReq bo req (Region loc) ReadTimeoutShort;
          match r with
          | Err err => mret (Err err)
          | Ok resp =>
              match GetRegionError resp with
              | Err err => mret (Err err)
              | Ok (Some regionErr) =>
                  e ← backoff bo BoRegionMiss
                        (errors_New (RegionError_String regionErr));
                  match e with
                  | Some err => mret (Err err)
                  | None => sendReq_loop fuel' bo key req reverse
                  end
              | Ok None => mret (Ok (resp, loc))
              end
          end
      end
  end.

(** [Client.sendReq]. *)
Definition sendReq (fuel : nat) (c : Client) (key : bytes) (req : Request)
    (reverse : bool) : M (Result (Response * KeyLocation)) :=
  bo ← newBackoffer rawkvMaxBackoff;
  sendReq_loop fuel bo key req reverse.

(** *** Point writes *)

(** [Client.PutWithTTL]. *)
Definition PutWithTTL (fuel : nat) (c : Client) (key value : bytes) (ttl : N)
  : M (option Error) :=
  if len value =? 0 then mret (Some (errors_New "empty value is not supported"))
  else
    let req := NewRequest CmdRawPut (RawPutRequest key value ttl (atomic c)) in
    r ← sendReq fuel c key req false;
    match r with
    | Err err => mret (Some err)
    | Ok (resp, _) =>
        match Resp resp with
        | None => mret (Some (errors_WithStack ErrBodyMissing))
        | Some (RawPutResponse _ e) =>
            if decide (e ≠ "") then mret (Some (errors_New e)) else mret None
        | Some _ => panic
        end
    end.

(** [Client.Put]. *)
Definition Put (fuel : nat) (c : Client) (key value : bytes) : M (option Error) :=
  PutWithTTL fuel c key value 0%N.

(** [Client.CompareAndSwap]; [previousValue] is [None] for a nil slice. *)
Definition CompareAndSwap (fuel : nat) (c : Client) (key : bytes)
    (previousValue : option bytes) (newValue : bytes) : M (Result (bytes * bool)) :=
  if negb (atomic c)
  then mret (Err (errors_New "using CompareAndSwap without enable atomic mode"))
  else if len newValue =? 0
  then mret (Err (errors_New "empty value is not supported"))
  else
    let reqArgs :=
      match previousValue with
      | None => RawCASRequest key newValue true []
      | Some p => RawCASRequest key newValue false p
      end in
    let req := withMaxExecutionDurationMs MaxWriteExecutionTimeMs
                 (NewRequest CmdRawCompareAndSwap reqArgs) in
    r ← sendReq fuel c key req false;
    match r with
    | Err err => mret (Err err)
    | Ok (resp, _) =>
        match Resp resp with
        | None => mret (Err (errors_WithStack ErrBodyMissing))
        | Some (RawCASResponse _ e succeed previousNotExist prev) =>
            if decide (e ≠ "") then mret (Err (errors_New e))
            else if previousNotExist then mret (Ok ([], succeed))
            else mret (Ok (prev, succeed))
        | Some _ => panic
        end
    end.

(** *** Scans *)

(** The pairs of a scan response appended to both accumulators. *)
Definition appendKvs (keys values : list bytes) (kvs : list KvPair)
  : list bytes * list bytes :=
  foldl (λ acc pair, (acc.1 ++ [Key pair], acc.2 ++ [Value pair])) (keys, values) kvs.

(** The [for] loop of [Client.Scan]. *)
Fixpoint Scan_loop (fuel : nat) (c : Client) (startKey endKey : bytes) (limit : Z)
    (keys values : list bytes) : M (Result (list bytes * list bytes)) :=
  if (len keys <? limit) && ((len endKey =? 0) || (bytes_Compare startKey endKey <? 0))
  then
    match fuel with
    | O => out_of_fuel
    | S fuel' =>
        let req := NewRequest CmdRawScan
                     (RawScanRequest startKey endKey (uint32 (limit - len keys)) false) in
        r ← sendReq fuel c startKey req false;
        match r with
        | Err err => mret (Err err)
        | Ok (resp, loc) =>
            match Resp resp with
            | None => mret (Err (errors_WithStack ErrBodyMissing))
            | Some (RawScanResponse _ kvs) =>
                let '(keys', values') := appendKvs keys values kvs in
                let startKey' := EndKey loc in
                if len startKey' =? 0 then mret (Ok (keys', values'))
                else Scan_loop fuel' c startKey' endKey limit keys' values'
            | Some _ => panic
            end
        end
    end
  else mret (Ok (keys, values)).

(** [Client.Scan]. *)
Definition Scan (fuel : nat) (c : Client) (startKey endKey : bytes) (limit : Z)
  : M (Result (list bytes * list bytes)) :=
  if limit >? MaxRawKVScanLimit
  then mret (Err (errors_WithStack ErrMaxScanLimitExceeded))
  else Scan_loop fuel c startKey endKey limit [] [].

(** The [for] loop of [Client.ReverseScan]. *)
Fixpoint ReverseScan_loop (fuel : nat) (c : Client) (startKey endKey : bytes)
    (limit : Z) (keys values : list bytes) : M (Result (list bytes * list bytes)) :=
  if (len keys <? limit) && (bytes_Compare startKey endKey >? 0)
  then
    match fuel with
    | O => out_of_fuel
    | S fuel' =>
        let req := NewRequest CmdRawScan
                     (RawScanRequest startKey endKey (uint32 (limit - len keys)) true) in
        r ← sendReq fuel c startKey req true;
        match r with
        | Err err => mret (Err err)
        | Ok (resp, loc) =>
            match Resp resp with
            | None => mret (Err (errors_WithStack ErrBodyMissing))
            | Some (RawScanResponse _ kvs) =>
                let '(keys', values') := appendKvs keys values kvs in
                let startKey' := StartKey loc in
                if len startKey' =? 0 then mret (Ok (keys', values'))
                else ReverseScan_loop fuel' c startKey' endKey limit keys' values'
            | Some _ => panic
            end
        end
    end
  else mret (Ok (keys, values)).

(** [Client.ReverseScan]. *)
Definition ReverseScan (fuel : nat) (c : Client) (startKey endKey : bytes) (limit : Z)
  : M (Result (list bytes * list bytes)) :=
  if limit >? MaxRawKVScanLimit
  then mret (Err (errors_WithStack ErrMaxScanLimitExceeded))
  else ReverseScan_loop fuel c startKey endKey limit [] [].

(** *** Sequential range delete *)

(** The [for { ... }] of [sendDeleteRangeReq]. *)
Fixpoint sendDeleteRangeReq_loop (fuel : nat) (bo : Bo) (startKey endKey : bytes)
  : M (Result (Response * bytes)) :=
  match fuel with
  | O => out_of_fuel
  | S fuel' =>
      l ← locateKey bo startKey;
      match l with
      | Err err => mret (Err err)
      | Ok loc =>
          let actualEndKey :=
            if (len (EndKey loc) >? 0) && (bytes_Compare (EndKey loc) endKey <? 0)
            then EndKey loc else endKey in
          let req := withMaxExecutionDurationMs MaxWriteExecutionTimeMs
                       (NewRequest CmdRawDeleteRange
                          (RawDeleteRangeRequest startKey actualEndKey)) in
          r ← senderSendReq bo req (Region loc) ReadTimeoutShort;
          match r with
          | Err err => mret (Err err)
          | Ok resp =>
              match GetRegionError resp with
              | Err err => mret (Err err)
              | Ok (Some regionErr) =>
                  e ← backoff bo BoRegionMiss
                        (errors_New (RegionError_String regionErr));
                  match e with
                  | Some err => mret (Err err)
                  | None => sendDeleteRangeReq_loop fuel' bo startKey endKey
                  end
              | Ok None => mret (Ok (resp, actualEndKey))
              end
          end
      end
  end.

(** [Client.sendDeleteRangeReq]. *)
Definition sendDeleteRangeReq (fuel : nat) (c : Client) (startKey endKey : bytes)
  : M (Result (Response * bytes)) :=
  bo ← newBackoffer rawkvMaxBackoff;
  sendDeleteRangeReq_loop fuel bo startKey endKey.

(** [Client.DeleteRange]. *)
Fixpoint DeleteRange (fuel : nat) (c : Client) (startKey endKey : bytes)
  : M (option Error) :=
  if bytes_Equal startKey endKey then mret None
  else
    match fuel with
    | O => out_of_fuel
    | S fuel' =>
        r ← sendDeleteRangeReq fuel c startKey endKey;
        match r with
        | Err err => mret (Some err)
        | Ok (resp, actualEndKey) =>
            match Resp resp with
            | None => mret (Some (errors_WithStack ErrBodyMissing))
            | Some (RawDeleteRangeResponse _ e) =>
                if decide (e ≠ "") then mret (Some (errors_New e))
                else DeleteRange fuel' c actualEndKey endKey
            | Some _ => panic
            end
        end
    end.

(** *** Fan-out *)

Definition schedule (n : nat) : M nat := λ s,
  let '(i, w) := Schedule n (world s) in
  Done (if decide (i < n)%nat then i else O) {| world := w; trace := trace s |}.

(** [for _, x := range xs { x1 := x; go func() { ch <- run(x1) }() }]
    followed by [len(xs)] receives from [ch].  The goroutines are run one
    after the other, each to completion, in the order the world schedules
    them; the result is what the receiver reads from the channel, in that
    order.  [n] is the number of goroutines still running.  The callers
    end a task with the [cancel] of its deferred call; in the source that
    call runs after the result is sent on the channel and the events of the
    tasks and of the receiver may interleave, so the order of events across
    tasks is one of the schedules the source allows. *)
Fixpoint goAll {T R} (run : T -> M R) (n : nat) (running : list T) : M (list R) :=
  match n with
  | O => mret []
  | S n' =>
      i ← schedule (length running);
      match running !! i with
      | None => mret []
      | Some x =>
          r ← run x;
          rs ← goAll run n' (delete i running);
          mret (r :: rs)
      end
  end.

(** The receive loop shared by [sendBatchPut] and [BatchDeleteRange]:
    [if e := <-ch; e != nil { cancel(); if err == nil { err = WithStack(e) } }]. *)
Fixpoint catchFirstError (bo : Bo) (es : list (option Error)) (err : option Error)
  : M (option Error) :=
  match es with
  | [] => mret err
  | None :: es' => catchFirstError bo es' err
  | Some e :: es' =>
      _ ← cancel bo;
      catchFirstError bo es'
        (if err is None then Some (errors_WithStack e) else err)
  end.

(** *** Batched reads and deletes *)

(** [Client.doBatchReq], with the recursive call to [sendBatchReq]
    passed in as [sendBatchReq_rec]. *)
Definition doBatchReq_
    (sendBatchReq_rec : Bo -> list bytes -> CmdType -> M (option Response * option Error))
    (c : Client) (bo : Bo) (batch : Batch) (cmdType : CmdType) : M BatchResult :=
  req ← match cmdType with
        | CmdRawBatchGet =>
            mret (NewRequest cmdType (RawBatchGetRequest (Keys batch)))
        | CmdRawBatchDelete =>
            mret (NewRequest cmdType (RawBatchDeleteRequest (Keys batch) (atomic c)))
        | _ => panic
        end;
  let req := withMaxExecutionDurationMs MaxWriteExecutionTimeMs req in
  r ← senderSendReq bo req (RegionID batch) ReadTimeoutShort;
  match r with
  | Err err => mret {| Response_ := None; Error_ := Some err |}
  | Ok resp =>
      match GetRegionError resp with
      | Err err => mret {| Response_ := None; Error_ := Some err |}
      | Ok (Some regionErr) =>
          e ← backoff bo BoRegionMiss (errors_New (RegionError_String regionErr));
          match e with
          | Some err => mret {| Response_ := None; Error_ := Some err |}
          | None =>
              '(resp', err) ← sendBatchReq_rec bo (Keys batch) cmdType;
              mret {| Response_ := resp'; Error_ := err |}
          end
      | Ok None =>
          match cmdType with
          | CmdRawBatchGet => mret {| Response_ := Some resp; Error_ := None |}
          | CmdRawBatchDelete =>
              match Resp resp with
              | None =>
                  mret {| Response_ := None;
                          Error_ := Some (errors_WithStack ErrBodyMissing) |}
              | Some (RawBatchDeleteResponse _ e) =>
                  if decide (e ≠ "")
                  then mret {| Response_ := None; Error_ := Some (errors_New e) |}
                  else mret {| Response_ := Some resp; Error_ := None |}
              | Some _ => panic
              end
          | _ => mret {| Response_ := None; Error_ := None |}
          end
      end
  end.

(** The receive loop of [sendBatchReq]: [pairs] is the [Pairs] field of
    the merged batch-get response. *)
Fixpoint collectBatchResults (bo : Bo) (cmdType : CmdType) (rs : list BatchResult)
    (firstError : option Error) (pairs : list KvPair)
  : M (option Error * list KvPair) :=
  match rs with
  | [] => mret (firstError, pairs)
  | singleResp :: rs' =>
      match Error_ singleResp with
      | Some e =>
          _ ← cancel bo;
          collectBatchResults bo cmdType rs'
            (if firstError is None then Some (errors_WithStack e) else firstError)
            pairs
      | None =>
          if decide (cmdType = CmdRawBatchGet) then
            match Response_ singleResp with
            | Some {| Resp := Some (RawBatchGetResponse _ ps) |} =>
                collectBatchResults bo cmdType rs' firstError (pairs ++ ps)
            | _ => panic
            end
          else collectBatchResults bo cmdType rs' firstError pairs
      end
  end.

(** [for regionID, groupKeys := range groups { batches = AppendKeyBatches(...) }] *)
Definition keyBatches (groups : list (RegionVerID * list bytes)) : list Batch :=
  foldl (λ batches g, AppendKeyBatches batches g.1 g.2 rawBatchPairCount) [] groups.

(** [Client.sendBatchReq]; one unit of fuel per level of re-planning. *)
Fixpoint sendBatchReq (fuel : nat) (c : Client) (bo : Bo) (keys : list bytes)
    (cmdType : CmdType) : M (option Response * option Error) :=
  match fuel with
  | O => out_of_fuel
  | S fuel' =>
      g ← groupKeysByRegion bo keys;
      match g with
      | Err err => mret (None, Some err)
      | Ok groups =>
          let batches := keyBatches groups in
          bo ← fork bo;
          rs ← goAll (λ batch1,
                  singleBatchBackoffer ← fork bo;
                  r ← doBatchReq_ (sendBatchReq fuel' c) c singleBatchBackoffer
                        batch1 cmdType;
                  _ ← cancel singleBatchBackoffer;
                  mret r)
                (length batches) batches;
          '(firstError, pairs) ← collectBatchResults bo cmdType rs None [];
          let resp :=
            match cmdType with
            | CmdRawBatchGet => Some {| Resp := Some (RawBatchGetResponse None pairs) |}
            | CmdRawBatchDelete => Some {| Resp := Some (RawBatchDeleteResponse None "") |}
            | _ => None
            end in
          mret (resp, firstError)
      end
  end.

(** [Client.doBatchReq]. *)
Definition doBatchReq (fuel : nat) (c : Client) : Bo -> Batch -> CmdType -> M BatchResult :=
  doBatchReq_ (sendBatchReq fuel c) c.

(** [keyToValue[string(pair.Key)] = pair.Value] for every pair in turn. *)
Definition pairsToMap (pairs : list KvPair) : gmap bytes bytes :=
  foldl (λ m pair, <[Key pair := Value pair]> m) ∅ pairs.

(** [Client.BatchGet]. *)
Definition BatchGet (fuel : nat) (c : Client) (keys : list bytes)
  : M (Result (list bytes)) :=
  bo ← newBackoffer rawkvMaxBackoff;
  '(resp, err) ← sendBatchReq fuel c bo keys CmdRawBatchGet;
  match err with
  | Some err => mret (Err err)
  | None =>
      match resp with
      | None => panic
      | Some {| Resp := None |} => mret (Err (errors_WithStack ErrBodyMissing))
      | Some {| Resp := Some (RawBatchGetResponse _ pairs) |} =>
          let keyToValue := pairsToMap pairs in
          mret (Ok ((λ key, default [] (keyToValue !! key)) <$> keys))
      | Some _ => panic
      end
  end.

(** *** Batched writes *)

(** The first loop of [sendBatchPut]: [None] when [values[i]] or
    [ttls[i]] is out of range. *)
Fixpoint putMaps (keys : list bytes) (i : nat) (values : list bytes) (ttls : list N)
    (keyToValue : gmap bytes bytes) (keyTottl : gmap bytes N)
  : option (gmap bytes bytes * gmap bytes N) :=
  match keys with
  | [] => Some (keyToValue, keyTottl)
  | key :: keys' =>
      match values !! i with
      | None => None
      | Some v =>
          if len ttls >? 0 then
            match ttls !! i with
            | None => None
            | Some t =>
                putMaps keys' (S i) values ttls (<[key := v]> keyToValue)
                  (<[key := t]> keyTottl)
            end
          else putMaps keys' (S i) values ttls (<[key := v]> keyToValue) keyTottl
      end
  end.

(** The first loop of [doBatchPut]. *)
Fixpoint kvPairs (keys : list bytes) (i : nat) (values : list bytes)
  : option (list KvPair) :=
  match keys with
  | [] => Some []
  | key :: keys' =>
      match values !! i with
      | None => None
      | Some v =>
          match kvPairs keys' (S i) values with
          | None => None
          | Some ps => Some ({| Key := key; Value := v |} :: ps)
          end
      end
  end.

(** [Client.doBatchPut], with the recursive call to [sendBatchPut] passed in. *)
Definition doBatchPut_
    (sendBatchPut_rec : Bo -> list bytes -> list bytes -> list N -> M (option Error))
    (c : Client) (bo : Bo) (batch : Batch) : M (option Error) :=
  match kvPairs (Keys batch) O (Values batch) with
  | None => panic
  | Some kvPair =>
      let req := withMaxExecutionDurationMs MaxWriteExecutionTimeMs
                   (NewRequest CmdRawBatchPut
                      (RawBatchPutRequest kvPair (atomic c) (TTLs batch))) in
      r ← senderSendReq bo req (RegionID batch) ReadTimeoutShort;
      match r with
      | Err err => mret (Some err)
      | Ok resp =>
          match GetRegionError resp with
          | Err err => mret (Some err)
          | Ok (Some regionErr) =>
              e ← backoff bo BoRegionMiss (errors_New (RegionError_String regionErr));
              match e with
              | Some err => mret (Some err)
              | None => sendBatchPut_rec bo (Keys batch) (Values batch) (TTLs batch)
              end
          | Ok None =>
              match Resp resp with
              | None => mret (Some (errors_WithStack ErrBodyMissing))
              | Some (RawBatchPutResponse _ e) =>
                  if decide (e ≠ "") then mret (Some (errors_New e)) else mret None
              | Some _ => panic
              end
          end
      end
  end.

(** [Client.sendBatchPut]. *)
Fixpoint sendBatchPut (fuel : nat) (c : Client) (bo : Bo) (keys values : list bytes)
    (ttls : list N) : M (option Error) :=
  match fuel with
  | O => out_of_fuel
  | S fuel' =>
      match putMaps keys O values ttls ∅ ∅ with
      | None => panic
      | Some (keyToValue, keyTottl) =>
          g ← groupKeysByRegion bo keys;
          match g with
          | Err err => mret (Some err)
          | Ok groups =>
              let batches :=
                foldl (λ batches g,
                         AppendBatches batches g.1 g.2 keyToValue keyTottl rawBatchPutSize)
                      [] groups in
              bo ← fork bo;
              es ← goAll (λ batch1,
                      singleBatchBackoffer ← fork bo;
                      e ← doBatchPut_ (sendBatchPut fuel' c) c singleBatchBackoffer batch1;
                      _ ← cancel singleBatchBackoffer;
                      mret e)
                    (length batches) batches;
              catchFirstError bo es None
          end
      end
  end.

(** [Client.BatchPut]. *)
Definition BatchPut (fuel : nat) (c : Client) (keys values : list bytes) (ttls : list N)
  : M (option Error) :=
  if negb (len keys =? len values)
  then mret (Some (errors_New "the len of keys is not equal to the len of values"))
  else if (len ttls >? 0) && negb (len keys =? len ttls)
  then mret (Some (errors_New "the len of ttls is not equal to the len of values"))
  else if existsb (λ value, len value =? 0) values
  then mret (Some (errors_New "empty value is not supported"))
  else
    bo ← newBackoffer rawkvMaxBackoff;
    sendBatchPut fuel c bo keys values ttls.

(** *** Batched range delete *)

(** [Client.doBatchDeleteRangeReq]. *)
Fixpoint doBatchDeleteRangeReq (fuel : nat) (c : Client) (bo : Bo)
    (request : KeyLocation) : M (option Error) :=
  match fuel with
  | O => out_of_fuel
  | S fuel' =>
      let req := withMaxExecutionDurationMs MaxWriteExecutionTimeMs
                   (NewRequest CmdRawDeleteRange
                      (RawDeleteRangeRequest (StartKey request) (EndKey request))) in
      r ← senderSendReq bo req (Region request) ReadTimeoutShort;
      match r with
      | Err err => _ ← logError "snendReq err" err; mret (Some err)
      | Ok resp =>
          match GetRegionError resp with
          | Err err => _ ← logError "getRegion err" err; mret (Some err)
          | Ok (Some regionErr) =>
              e ← backoff bo BoRegionMiss (errors_New (RegionError_String regionErr));
              match e with
              | Some err => _ ← logError "backoff err" err; mret (Some err)
              | None => doBatchDeleteRangeReq fuel' c bo request
              end
          | Ok None => mret None
          end
      end
  end.

(** The inner [for i = 0; i < batchSize; i++] of [BatchDeleteRange], with
    [n] iterations left; it returns the new [tmpStartKey] and
    [keyLocations], or the error of the early [return err]. *)
Fixpoint collectLocations (n : nat) (bo : Bo) (tmpStartKey tmpEndKey : bytes)
    (keyLocations : list KeyLocation) : M (Result (bytes * list KeyLocation)) :=
  match n with
  | O => mret (Ok (tmpStartKey, keyLocations))
  | S n' =>
      l ← locateKey bo tmpStartKey;
      match l with
      | Err err => mret (Err err)
      | Ok loc =>
          if (len (EndKey loc) >? 0) && (bytes_Compare (EndKey loc) tmpEndKey <? 0)
          then
            let tmpStartKey := EndKey loc in
            collectLocations n' bo tmpStartKey tmpEndKey
              (keyLocations ++
                 [{| Region := Region loc; StartKey := tmpStartKey; EndKey := EndKey loc |}])
          else
            let tmpStartKey := tmpEndKey in
            mret (Ok (tmpStartKey,
                      keyLocations ++
                        [{| Region := Region loc; StartKey := tmpStartKey;
                            EndKey := tmpEndKey |}]))
      end
  end.

(** The outer [for] of [BatchDeleteRange].  [Err e] is the early
    [return err]; [Ok err] is the value of the local [err] when the loop
    is left. *)
Fixpoint BatchDeleteRange_loop (fuel : nat) (c : Client) (bo : Bo)
    (tmpStartKey tmpEndKey : bytes) (batchSize : Z) (keyLocations : list KeyLocation)
    (err : option Error) : M (Result (option Error)) :=
  if bytes_Equal tmpStartKey tmpEndKey then mret (Ok err)
  else
    match fuel with
    | O => out_of_fuel
    | S fuel' =>
        r ← collectLocations (Z.to_nat batchSize) bo tmpStartKey tmpEndKey keyLocations;
        match r with
        | Err e => mret (Err e)
        | Ok (tmpStartKey, keyLocations) =>
            bo' ← fork bo;
            es ← goAll (λ batch1,
                    singleBatchBackoffer ← fork bo';
                    e ← doBatchDeleteRangeReq fuel c singleBatchBackoffer batch1;
                    _ ← cancel singleBatchBackoffer;
                    mret e)
                  (length keyLocations) keyLocations;
            err ← catchFirstError bo' es err;
            _ ← (if err is Some e
                 then logError "doBatchDeleteRangeReq in channel err" e else mret tt);
            BatchDeleteRange_loop fuel' c bo tmpStartKey tmpEndKey batchSize
              keyLocations err
        end
    end.

(** [Client.BatchDeleteRange]; [make] panics on a negative length. *)
Definition BatchDeleteRange (fuel : nat) (c : Client) (startKey endKey : bytes)
    (batchSize : Z) : M (option Error) :=
  bo ← newBackoffer rawkvMaxBackoff;
  if batchSize <? 0 then panic
  else
    let keyLocations := replicate (Z.to_nat batchSize) zeroKeyLocation in
    r ← BatchDeleteRange_loop fuel c bo startKey endKey batchSize keyLocations None;
    match r with
    | Err e => mret (Some e)
    | Ok _ => mret None
    end.

End WithBackend.

Arguments State W : clear implicits.
Arguments Outcome W A : clear implicits.
Arguments M W A : clear implicits.
Arguments Done {W A} a s.
Arguments Panic {W A} s.
Arguments OutOfFuel {W A} s.

(** ** A scripted cluster

    A test double for the collaborators: a fixed routing table, a
    transport and a back-offer that answer from scripts, and goroutines
    that finish in launch order. *)

#[global] Instance RegionVerID_eq_dec : EqDecision RegionVerID.
Proof. solve_decision. Defined.

Record Mock := {
  mRegions : list KeyLocation;
  mSends : list (Result Response);
  mBackoffs : list (option Error);
  mNextBo : N;
  mRpcClose : option Error
}.

Definition covers (loc : KeyLocation) (key : bytes) : bool :=
  (bytes_Compare (StartKey loc) key <=? 0)
  && ((len (EndKey loc) =? 0) || (bytes_Compare key (EndKey loc) <? 0)).

Definition coversEnd (loc : KeyLocation) (key : bytes) : bool :=
  (bytes_Compare (StartKey loc) key <? 0)
  && ((len (EndKey loc) =? 0) || (bytes_Compare key (EndKey loc) <=? 0)).

Definition mockLocate (inside : KeyLocation -> bytes -> bool) (key : bytes) (w : Mock)
  : Result KeyLocation * Mock :=
  match List.find (λ loc, inside loc key) (mRegions w) with
  | Some loc => (Ok loc, w)
  | None => (Err (errors_New "region not found"), w)
  end.

Fixpoint addToGroup (r : RegionVerID) (key : bytes)
    (groups : list (RegionVerID * list bytes)) : list (RegionVerID * list bytes) :=
  match groups with
  | [] => [(r, [key])]
  | (r', ks) :: groups' =>
      if decide (r = r') then (r', ks ++ [key]) :: groups'
      else (r', ks) :: addToGroup r key groups'
  end.

Fixpoint mockGroup (keys : list bytes) (w : Mock)
    (groups : list (RegionVerID * list bytes))
  : Result (list (RegionVerID * list bytes)) :=
  match keys with
  | [] => Ok groups
  | key :: keys' =>
      match mockLocate covers key w with
      | (Ok loc, _) => mockGroup keys' w (addToGroup (Region loc) key groups)
      | (Err e, _) => Err e
      end
  end.

Definition mockNewBo (w : Mock) : Bo * Mock :=
  (mNextBo w,
   {| mRegions := mRegions w; mSends := mSends w; mBackoffs := mBackoffs w;
      mNextBo := N.succ (mNextBo w); mRpcClose := mRpcClose w |}).

Definition mockSend (w : Mock) : Result Response * Mock :=
  match mSends w with
  | [] => (Err (errors_New "transport is down"), w)
  | r :: rest =>
      (r, {| mRegions := mRegions w; mSends := rest; mBackoffs := mBackoffs w;
             mNextBo := mNextBo w; mRpcClose := mRpcClose w |})
  end.

Definition mockBackoff (w : Mock) : option Error * Mock :=
  match mBackoffs w with
  | [] => (None, w)
  | r :: rest =>
      (r, {| mRegions := mRegions w; mSends := mSends w; mBackoffs := rest;
             mNextBo := mNextBo w; mRpcClose := mRpcClose w |})
  end.

(** [tikvrpc.Response.GetRegionError] as the double implements it: the
    region error of the body, and none for a response without a body,
    which the client tests for after the inspection. *)
Definition mockGetRegionError (resp : Response) : Result (option RegionError) :=
  match Resp resp with
  | None => Ok None
  | Some (RawPutResponse re _) | Some (RawDeleteRangeResponse re _)
  | Some (RawScanResponse re _) | Some (RawCASResponse re _ _ _ _)
  | Some (RawBatchGetResponse re _) | Some (RawBatchDeleteResponse re _)
  | Some (RawBatchPutResponse re _) => Ok re
  end.

#[global] Instance Mock_backend : Backend Mock := {|
  NewBackofferWithVars := λ _, mockNewBo;
  Fork := λ _, mockNewBo;
  Cancel := λ _ w, w;
  Backoff := λ _ _ _, mockBackoff;
  LocateKey := λ _, mockLocate covers;
  LocateEndKey := λ _, mockLocate coversEnd;
  GroupKeysByRegion := λ _ keys w, (mockGroup keys w [], w);
  cacheClose := λ w, w;
  SendReq := λ _ _ _ _, mockSend;
  rpcClose := λ w, (mRpcClose w, w);
  pdClose := λ w, w;
  GetRegionError := mockGetRegionError;
  AppendKeyBatches := λ batches r ks _,
    batches ++ [{| RegionID := r; Keys := ks; Values := []; TTLs := [] |}];
  AppendBatches := λ batches r ks keyToValue keyTottl _,
    batches ++ [{| RegionID := r; Keys := ks;
                   Values := map (λ k, default [] (keyToValue !! k)) ks;
                   TTLs := omap (λ k, keyTottl !! k) ks |}];
  ReadTimeoutShort := 30000;
  MaxWriteExecutionTimeMs := 9000;
  Schedule := λ _ w, (O, w)
|}.

(** Two regions split at ["m"], as in the end-to-end scenarios. *)
Definition region1 : RegionVerID := {| regionId := 1; confVer := 1; ver := 1 |}.
Definition region2 : RegionVerID := {| regionId := 2; confVer := 1; ver := 1 |}.
Definition twoRegions : list KeyLocation :=
  [ {| Region := region1; StartKey := []; EndKey := B "m" |};
    {| Region := region2; StartKey := B "m"; EndKey := [] |} ].

Definition cluster (sends : list (Result Response)) (backoffs : list (option Error))
  : State Mock :=
  {| world := {| mRegions := twoRegions; mSends := sends; mBackoffs := backoffs;
                 mNextBo := 1; mRpcClose := None |};
     trace := [] |}.

Definition client0 : Client :=
  {| clusterID := 7; regionCache := Some (); pdClient := Some ();
     rpcClient := Some (); atomic := false |}.

Definition result {W A} (o : Outcome W A) : option A :=
  match o with Done a _ => Some a | _ => None end.

Definition events {W A} (o : Outcome W A) : list Event :=
  match o with Done _ s | Panic s | OutOfFuel s => trace s end.

Definition rpcs (tr : list Event) : list (ReqBody * RegionVerID) :=
  omap (λ e, match e with
             | EvSendReq _ req region _ _ => Some (Req req, region)
             | _ => None
             end) tr.

Definition logs (tr : list Event) : list (string * Error) :=
  omap (λ e, match e with EvLog msg err => Some (msg, err) | _ => None end) tr.

Definition final {W A} (o : Outcome W A) : State W :=
  match o with Done _ s | Panic s | OutOfFuel s => s end.

(** Canned answers of the transport. *)
Definition deleted : Result Response :=
  Ok {| Resp := Some (RawDeleteRangeResponse None "") |}.
Definition scanned (kvs : list KvPair) : Result Response :=
  Ok {| Resp := Some (RawScanResponse None kvs) |}.
Definition fetched (pairs : list KvPair) : Result Response :=
  Ok {| Resp := Some (RawBatchGetResponse None pairs) |}.
Definition staleRegion : Result Response :=
  Ok {| Resp := Some (RawDeleteRangeResponse
                        (Some {| RegionError_String := "epoch not match" |}) "") |}.
Definition pair (k v : string) : KvPair := {| Key := B k; Value := B v |}.

(** The runs the scenarios below look at. *)
Definition putRequest : Request :=
  NewRequest CmdRawPut (RawPutRequest (B "a") (B "1") 0 false).

(** A forward scan over both regions. *)
Definition scanRun : Outcome Mock (Result (list bytes * list bytes)) :=
  Scan 5 client0 (B "a") (B "z") 100
    (cluster [scanned [pair "a" "1"]; scanned [pair "n" "2"]] []).

(** A range delete over both regions whose first attempt hits a stale region. *)
Definition deleteRun : Outcome Mock (option Error) :=
  DeleteRange 5 client0 (B "a") (B "z")
    (cluster [staleRegion; deleted; deleted] [None]).

(** A batch get over both regions; the key ["x"] is not stored. *)
Definition batchGetRun : Outcome Mock (Result (list bytes)) :=
  BatchGet 5 client0 [B "z"; B "a"; B "n"; B "x"]
    (cluster [fetched [pair "z" "3"; pair "n" "2"]; fetched [pair "a" "1"]] []).

(** A batched range delete, one region per batch, on a healthy cluster. *)
Definition batchDeleteRun : Outcome Mock (option Error) :=
  BatchDeleteRange 5 client0 (B "a") (B "z") 1
    (cluster [deleted; deleted; deleted; deleted; deleted] []).

(** The same batched range delete with the transport down. *)
Definition failedBatchDeleteRun : Outcome Mock (option Error) :=
  BatchDeleteRange 5 client0 (B "a") (B "z") 1 (cluster [] []).

(** ** What the operations are expected to do

    The behaviour of the dispatchers and walkers, written over traces. *)

(** The error kinds of the design: an argument error is an empty value on
    a write, a length mismatch on a batch write, a scan limit above the
    cap, or a compare-and-swap without atomic mode. *)
Inductive ErrorKind := ArgumentError | BodyMissingError | OtherError.

Definition argumentMessages : list string :=
  [ "empty value is not supported";
    "the len of keys is not equal to the len of values";
    "the len of ttls is not equal to the len of values";
    "using CompareAndSwap without enable atomic mode" ].

Fixpoint errorKind (e : Error) : ErrorKind :=
  match e with
  | ErrMaxScanLimitExceeded => ArgumentError
  | ErrBodyMissing => BodyMissingError
  | errors_New msg =>
      if decide (msg ∈ argumentMessages) then ArgumentError else OtherError
  | errors_WithStack e' => errorKind e'
  end.

(** The error a collaborator reported in an event, if it reported one:
    a failed lookup, a failed send, or a back-off that gave up. *)
Definition failedWith (e : Event) : option Error :=
  match e with
  | EvLocateKey _ _ (Err err) | EvLocateEndKey _ _ (Err err)
  | EvGroupKeysByRegion _ _ (Err err) | EvSendReq _ _ _ _ (Err err)
  | EvBackoff _ _ _ (Some err) => Some err
  | _ => None
  end.

(** The pair the batch-get facade keeps for [key]: the last one the
    server returned under that key. *)
Definition lastPairFor (key : bytes) (pairs : list KvPair) : option KvPair :=
  last (filter (λ p, Key p = key) pairs).

(** The smaller of two keys in byte order. *)
Definition minKey (a b : bytes) : bytes := if bytes_Compare a b <? 0 then a else b.

(** The end of one range-delete step: the minimum of the region's end
    and the requested end, the requested end when the region is unbounded. *)
Definition stepEnd (locEnd endKey : bytes) : bytes :=
  if decide (locEnd = []) then endKey else minKey locEnd endKey.

(** The condition under which the forward scan keeps walking. *)
Definition scanContinues (keys : list bytes) (limit : Z) (startKey endKey : bytes) : Prop :=
  len keys < limit ∧ (endKey = [] ∨ bytes_Compare startKey endKey < 0).

Section Specification.

Context {W : Type} `{Backend W}.

Definition lookupEvent (reverse : bool) (bo : Bo) (key : bytes)
    (res : Result KeyLocation) : Event :=
  if reverse then EvLocateEndKey bo key res else EvLocateKey bo key res.

Definition sendEvent (bo : Bo) (req : Request) (loc : KeyLocation)
    (res : Result Response) : Event :=
  EvSendReq bo req (Region loc) ReadTimeoutShort res.

Definition regionMissEvent (bo : Bo) (regionErr : RegionError) (res : option Error) : Event :=
  EvBackoff bo BoRegionMiss (errors_New (RegionError_String regionErr)) res.

(** The trace of one call of the single-key dispatcher after its
    back-offer is created, and what the call returns.  Every attempt
    resolves the location again; an attempt answered with a region error
    is followed by exactly one [RegionMiss] back-off. *)
Inductive sendReqRun (bo : Bo) (key : bytes) (req : Request) (reverse : bool)
  : list Event -> Result (Response * KeyLocation) -> Prop :=
| run_lookup_failed err :
    sendReqRun bo key req reverse [lookupEvent reverse bo key (Err err)] (Err err)
| run_send_failed loc err :
    sendReqRun bo key req reverse
      [lookupEvent reverse bo key (Ok loc); sendEvent bo req loc (Err err)] (Err err)
| run_inspection_failed loc resp err :
    GetRegionError resp = Err err ->
    sendReqRun bo key req reverse
      [lookupEvent reverse bo key (Ok loc); sendEvent bo req loc (Ok resp)] (Err err)
| run_backoff_failed loc resp regionErr err :
    GetRegionError resp = Ok (Some regionErr) ->
    sendReqRun bo key req reverse
      [lookupEvent reverse bo key (Ok loc); sendEvent bo req loc (Ok resp);
       regionMissEvent bo regionErr (Some err)] (Err err)
| run_answered loc resp :
    GetRegionError resp = Ok None ->
    sendReqRun bo key req reverse
      [lookupEvent reverse bo key (Ok loc); sendEvent bo req loc (Ok resp)]
      (Ok (resp, loc))
| run_retried loc resp regionErr tr r :
    GetRegionError resp = Ok (Some regionErr) ->
    sendReqRun bo key req reverse tr r ->
    sendReqRun bo key req reverse
      (lookupEvent reverse bo key (Ok loc) :: sendEvent bo req loc (Ok resp)
       :: regionMissEvent bo regionErr None :: tr) r.

(** [n] attempts in a row, each answered with a region error and followed
    by a back-off that let the dispatcher go on. *)
Inductive regionMisses (bo : Bo) (key : bytes) (req : Request) (reverse : bool)
  : nat -> list Event -> Prop :=
| misses_none : regionMisses bo key req reverse O []
| misses_more n loc resp regionErr tr :
    GetRegionError resp = Ok (Some regionErr) ->
    regionMisses bo key req reverse n tr ->
    regionMisses bo key req reverse (S n)
      (lookupEvent reverse bo key (Ok loc) :: sendEvent bo req loc (Ok resp)
       :: regionMissEvent bo regionErr None :: tr).

(** The request of one forward-scan iteration. *)
Definition scanRequest (startKey endKey : bytes) (remaining : Z) : Request :=
  NewRequest CmdRawScan (RawScanRequest startKey endKey remaining false).

(** The forward scan from [startKey] with [keys] and [values] accumulated
    so far: its trace and its result. *)
Inductive ScanWalk (endKey : bytes) (limit : Z)
  : bytes -> list bytes -> list bytes -> list Event ->
    Result (list bytes * list bytes) -> Prop :=
| scan_stops startKey keys values :
    ¬ scanContinues keys limit startKey endKey ->
    ScanWalk endKey limit startKey keys values [] (Ok (keys, values))
| scan_last_region startKey keys values bo tr resp loc regionErr kvs :
    scanContinues keys limit startKey endKey ->
    sendReqRun bo startKey (scanRequest startKey endKey (limit - len keys)) false tr
      (Ok (resp, loc)) ->
    Resp resp = Some (RawScanResponse regionErr kvs) ->
    EndKey loc = [] ->
    ScanWalk endKey limit startKey keys values
      (EvNewBackoffer rawkvMaxBackoff bo :: tr)
      (Ok (keys ++ map Key kvs, values ++ map Value kvs))
| scan_next_region startKey keys values bo tr resp loc regionErr kvs tr' r :
    scanContinues keys limit startKey endKey ->
    sendReqRun bo startKey (scanRequest startKey endKey (limit - len keys)) false tr
      (Ok (resp, loc)) ->
    Resp resp = Some (RawScanResponse regionErr kvs) ->
    EndKey loc ≠ [] ->
    ScanWalk endKey limit (EndKey loc) (keys ++ map Key kvs) (values ++ map Value kvs)
      tr' r ->
    ScanWalk endKey limit startKey keys values
      (EvNewBackoffer rawkvMaxBackoff bo :: tr ++ tr') r
| scan_dispatch_failed startKey keys values bo tr err :
    scanContinues keys limit startKey endKey ->
    sendReqRun bo startKey (scanRequest startKey endKey (limit - len keys)) false tr
      (Err err) ->
    ScanWalk endKey limit startKey keys values
      (EvNewBackoffer rawkvMaxBackoff bo :: tr) (Err err)
| scan_body_missing startKey keys values bo tr resp loc :
    scanContinues keys limit startKey endKey ->
    sendReqRun bo startKey (scanRequest startKey endKey (limit - len keys)) false tr
      (Ok (resp, loc)) ->
    Resp resp = None ->
    ScanWalk endKey limit startKey keys values
      (EvNewBackoffer rawkvMaxBackoff bo :: tr)
      (Err (errors_WithStack ErrBodyMissing)).

(** The region-scoped delete-range RPC for [[startKey, actualEnd)]. *)
Definition deleteRangeRequest (startKey actualEnd : bytes) : Request :=
  withMaxExecutionDurationMs MaxWriteExecutionTimeMs
    (NewRequest CmdRawDeleteRange (RawDeleteRangeRequest startKey actualEnd)).

Definition deleteRpc (bo : Bo) (startKey endKey : bytes) (loc : KeyLocation)
    (res : Result Response) : Event :=
  sendEvent bo (deleteRangeRequest startKey (stepEnd (EndKey loc) endKey)) loc res.

(** One step of the sequential range delete after its back-offer is
    created: the attempts it makes and what it returns. *)
Inductive DeleteStep (bo : Bo) (startKey endKey : bytes)
  : list Event -> Result (Response * bytes) -> Prop :=
| step_lookup_failed err :
    DeleteStep bo startKey endKey [EvLocateKey bo startKey (Err err)] (Err err)
| step_send_failed loc err :
    DeleteStep bo startKey endKey
      [EvLocateKey bo startKey (Ok loc); deleteRpc bo startKey endKey loc (Err err)]
      (Err err)
| step_inspection_failed loc resp err :
    GetRegionError resp = Err err ->
    DeleteStep bo startKey endKey
      [EvLocateKey bo startKey (Ok loc); deleteRpc bo startKey endKey loc (Ok resp)]
      (Err err)
| step_backoff_failed loc resp regionErr err :
    GetRegionError resp = Ok (Some regionErr) ->
    DeleteStep bo startKey endKey
      [EvLocateKey bo startKey (Ok loc); deleteRpc bo startKey endKey loc (Ok resp);
       regionMissEvent bo regionErr (Some err)] (Err err)
| step_answered loc resp :
    GetRegionError resp = Ok None ->
    DeleteStep bo startKey endKey
      [EvLocateKey bo startKey (Ok loc); deleteRpc bo startKey endKey loc (Ok resp)]
      (Ok (resp, stepEnd (EndKey loc) endKey))
| step_retried loc resp regionErr tr r :
    GetRegionError resp = Ok (Some regionErr) ->
    DeleteStep bo startKey endKey tr r ->
    DeleteStep bo startKey endKey
      (EvLocateKey bo startKey (Ok loc) :: deleteRpc bo startKey endKey loc (Ok resp)
       :: regionMissEvent bo regionErr None :: tr) r.

(** The sequential range delete from [startKey]: its trace and result. *)
Inductive DeleteWalk (endKey : bytes) : bytes -> list Event -> option Error -> Prop :=
| delete_done : DeleteWalk endKey endKey [] None
| delete_advances startKey bo tr resp actualEnd regionErr tr' r :
    startKey ≠ endKey ->
    DeleteStep bo startKey endKey tr (Ok (resp, actualEnd)) ->
    Resp resp = Some (RawDeleteRangeResponse regionErr "") ->
    DeleteWalk endKey actualEnd tr' r ->
    DeleteWalk endKey startKey (EvNewBackoffer rawkvMaxBackoff bo :: tr ++ tr') r
| delete_step_failed startKey bo tr err :
    startKey ≠ endKey ->
    DeleteStep bo startKey endKey tr (Err err) ->
    DeleteWalk endKey startKey (EvNewBackoffer rawkvMaxBackoff bo :: tr) (Some err)
| delete_body_missing startKey bo tr resp actualEnd :
    startKey ≠ endKey ->
    DeleteStep bo startKey endKey tr (Ok (resp, actualEnd)) ->
    Resp resp = None ->
    DeleteWalk endKey startKey (EvNewBackoffer rawkvMaxBackoff bo :: tr)
      (Some (errors_WithStack ErrBodyMissing))
| delete_server_error startKey bo tr resp actualEnd regionErr e :
    startKey ≠ endKey ->
    DeleteStep bo startKey endKey tr (Ok (resp, actualEnd)) ->
    Resp resp = Some (RawDeleteRangeResponse regionErr e) ->
    e ≠ "" ->
    DeleteWalk endKey startKey (EvNewBackoffer rawkvMaxBackoff bo :: tr)
      (Some (errors_New e)).

(** The events of [Close] on [c] when the transport's [Close] returns [r]. *)
Definition closeEvents (c : Client) (r : option Error) : list Event :=
  (if pdClient c is Some _ then [EvPdClose] else [])
  ++ (if regionCache c is Some _ then [EvCacheClose] else [])
  ++ (if rpcClient c is Some _ then [EvRpcClose r] else []).

End Specification.

(** ** The rest of the client

    The operations and the behaviour the sections below look at:
    construction, the mode switch, the batched delete, and the reverse
    walk, with what their traces are expected to contain. *)

(** [config.Security], of which [NewClient] reads the three cluster paths. *)
Record Security := {
  ClusterSSLCA : string;
  ClusterSSLCert : string;
  ClusterSSLKey : string
}.

(** The placement-driver side of construction: [pd.NewClient] with the
    addresses, the security paths and the opaque client options, and
    [GetClusterID] of the client it returned.  These two calls are not
    traced. *)
Class Placement (W : Type) := {
  pd_NewClient : list string -> Security -> list N -> W -> option Error * W;
  pd_GetClusterID : W -> N * W
}.

(** [Client.ClusterID]. *)
Definition ClusterID (c : Client) : N := clusterID c.

(** [Client.SetAtomicForCAS]: the flag is set on the client, which is
    returned. *)
Definition SetAtomicForCAS (b : bool) (c : Client) : Client :=
  {| clusterID := clusterID c; regionCache := regionCache c; pdClient := pdClient c;
     rpcClient := rpcClient c; atomic := b |}.

Section MoreOperations.

Context {W : Type} `{Backend W}.

#[local] Existing Instance M_ret.
#[local] Existing Instance M_bind.

(** [NewClient]: the fields of the composite literal are evaluated in
    order; the region cache and the RPC client are constructed without
    touching the world. *)
Definition NewClient `{Placement W} (pdAddrs : list string) (security : Security)
    (opts : list N) : M W (Result Client) := λ s,
  let '(e, w) := pd_NewClient pdAddrs security opts (world s) in
  match e with
  | Some err => Done (Err (errors_WithStack err)) {| world := w; trace := trace s |}
  | None =>
      let '(id, w') := pd_GetClusterID w in
      Done (Ok {| clusterID := id; regionCache := Some (); pdClient := Some ();
                  rpcClient := Some (); atomic := false |})
           {| world := w'; trace := trace s |}
  end.

(** [Client.BatchDelete]. *)
Definition BatchDelete (fuel : nat) (c : Client) (keys : list bytes)
  : M W (option Error) :=
  bo ← newBackoffer rawkvMaxBackoff;
  '(resp, err) ← sendBatchReq fuel c bo keys CmdRawBatchDelete;
  match err with
  | Some err => mret (Some err)
  | None =>
      match resp with
      | None => panic
      | Some {| Resp := None |} => mret (Some (errors_WithStack ErrBodyMissing))
      | Some {| Resp := Some (RawBatchDeleteResponse _ e) |} =>
          if decide (e ≠ "") then mret (Some (errors_New e)) else mret None
      | Some _ => panic
      end
  end.

(** The condition under which the reverse scan keeps walking. *)
Definition reverseContinues (keys : list bytes) (limit : Z) (startKey endKey : bytes)
  : Prop :=
  len keys < limit ∧ bytes_Compare startKey endKey > 0.

(** The request of one reverse-scan iteration. *)
Definition reverseScanRequest (startKey endKey : bytes) (remaining : Z) : Request :=
  NewRequest CmdRawScan (RawScanRequest startKey endKey remaining true).

(** The reverse scan from [startKey] with [keys] and [values] accumulated
    so far: its trace and its result. *)
Inductive ReverseWalk (endKey : bytes) (limit : Z)
  : bytes -> list bytes -> list bytes -> list Event ->
    Result (list bytes * list bytes) -> Prop :=
| reverse_stops startKey keys values :
    ¬ reverseContinues keys limit startKey endKey ->
    ReverseWalk endKey limit startKey keys values [] (Ok (keys, values))
| reverse_first_region startKey keys values bo tr resp loc regionErr kvs :
    reverseContinues keys limit startKey endKey ->
    sendReqRun bo startKey (reverseScanRequest startKey endKey (limit - len keys)) true
      tr (Ok (resp, loc)) ->
    Resp resp = Some (RawScanResponse regionErr kvs) ->
    StartKey loc = [] ->
    ReverseWalk endKey limit startKey keys values
      (EvNewBackoffer rawkvMaxBackoff bo :: tr)
      (Ok (keys ++ map Key kvs, values ++ map Value kvs))
| reverse_previous_region startKey keys values bo tr resp loc regionErr kvs tr' r :
    reverseContinues keys limit startKey endKey ->
    sendReqRun bo startKey (reverseScanRequest startKey endKey (limit - len keys)) true
      tr (Ok (resp, loc)) ->
    Resp resp = Some (RawScanResponse regionErr kvs) ->
    StartKey loc ≠ [] ->
    ReverseWalk endKey limit (StartKey loc) (keys ++ map Key kvs)
      (values ++ map Value kvs) tr' r ->
    ReverseWalk endKey limit startKey keys values
      (EvNewBackoffer rawkvMaxBackoff bo :: tr ++ tr') r
| reverse_dispatch_failed startKey keys values bo tr err :
    reverseContinues keys limit startKey endKey ->
    sendReqRun bo startKey (reverseScanRequest startKey endKey (limit - len keys)) true
      tr (Err err) ->
    ReverseWalk endKey limit startKey keys values
      (EvNewBackoffer rawkvMaxBackoff bo :: tr) (Err err)
| reverse_body_missing startKey keys values bo tr resp loc :
    reverseContinues keys limit startKey endKey ->
    sendReqRun bo startKey (reverseScanRequest startKey endKey (limit - len keys)) true
      tr (Ok (resp, loc)) ->
    Resp resp = None ->
    ReverseWalk endKey limit startKey keys values
      (EvNewBackoffer rawkvMaxBackoff bo :: tr)
      (Err (errors_WithStack ErrBodyMissing)).

(** The pairs a scan keeps from one event: those of a scan response that
    came back without a region error. *)
Definition scanAnswer (e : Event) : list KvPair :=
  match e with
  | EvSendReq _ _ _ _ (Ok resp) =>
      match GetRegionError resp, Resp resp with
      | Ok None, Some (RawScanResponse _ kvs) => kvs
      | _, _ => []
      end
  | _ => []
  end.

Definition scanAnswers (tr : list Event) : list KvPair := flat_map scanAnswer tr.

(** The request of one batch of a batched read or delete: the keys of
    the batch, the kind of the operation, the write-time budget and, for a
    delete, the mode of the client. *)
Definition batchRequest (cmdType : CmdType) (c : Client) (req : Request) : Prop :=
  ∃ ks, req = withMaxExecutionDurationMs MaxWriteExecutionTimeMs
                (NewRequest cmdType
                   (if decide (cmdType = CmdRawBatchGet)
                    then RawBatchGetRequest ks
                    else RawBatchDeleteRequest ks (atomic c)))
        ∧ (cmdType = CmdRawBatchGet ∨ cmdType = CmdRawBatchDelete).

(** The request of one batch of a batched write. *)
Definition batchPutRequest (c : Client) (req : Request) : Prop :=
  ∃ pairs ttls,
    req = withMaxExecutionDurationMs MaxWriteExecutionTimeMs
            (NewRequest CmdRawBatchPut (RawBatchPutRequest pairs (atomic c) ttls)).

(** The inspection of a response for a region error does not fail: the
    [GetRegionError() → regionError?] of the response type the client is
    written against. *)
Definition inspectionNeverFails : Prop :=
  ∀ resp err, GetRegionError resp ≠ Err err.

(** The pairs the server returned in one event: those of a batch-get
    response that came back without a region error. *)
Definition batchGetAnswer (e : Event) : list KvPair :=
  match e with
  | EvSendReq _ _ _ _ (Ok resp) =>
      match GetRegionError resp, Resp resp with
      | Ok None, Some (RawBatchGetResponse _ ps) => ps
      | _, _ => []
      end
  | _ => []
  end.

Definition batchGetAnswers (tr : list Event) : list KvPair := flat_map batchGetAnswer tr.

End MoreOperations.

Arguments inspectionNeverFails W {_}.

(** A put request for [key], [value] and [ttl] in the mode of the client,
    whatever its execution-time budget. *)
Definition putRequestFor (c : Client) (key value : bytes) (ttl : N) (req : Request) : Prop :=
  Type_ req = CmdRawPut ∧ Req req = RawPutRequest key value ttl (atomic c).

(** An event that sends nothing, or sends a request and to a region that
    satisfy [P]. *)
Definition sends (P : Request -> RegionVerID -> Prop) (e : Event) : Prop :=
  match e with
  | EvSendReq _ req region _ _ => P req region
  | _ => True
  end.

(** The requests sent in a trace, in order. *)
Definition requests (tr : list Event) : list Request :=
  omap (λ e, match e with EvSendReq _ req _ _ _ => Some req | _ => None end) tr.

Definition isLookup (e : Event) : bool :=
  match e with EvLocateKey _ _ _ | EvLocateEndKey _ _ _ => true | _ => false end.
Definition isSend (e : Event) : bool :=
  match e with EvSendReq _ _ _ _ _ => true | _ => false end.
Definition isBackoff (e : Event) : bool :=
  match e with EvBackoff _ _ _ _ => true | _ => false end.
Definition isFork (e : Event) : bool :=
  match e with EvFork _ _ => true | _ => false end.

(** How many events of a trace satisfy [p]. *)
Definition count (p : Event -> bool) (tr : list Event) : nat :=
  length (List.filter p tr).

(** The errors of the failed tasks among the results read from a channel. *)
Definition failures (es : list (option Error)) : list Error := omap id es.

(** What the map built from [keys] and [xs] holds for [key]: the entry at
    the last position where [key] occurs. *)
Definition lastValueAt {A} (key : bytes) (keys : list bytes) (xs : list A) : option A :=
  snd <$> last (filter (λ p, p.1 = key) (zip keys xs)).

(** The pairs of a batch result that the batch-get collector appends. *)
Definition resultPairs (r : BatchResult) : list KvPair :=
  match Error_ r, Response_ r with
  | None, Some {| Resp := Some (RawBatchGetResponse _ ps) |} => ps
  | _, _ => []
  end.

(** More of the scripted cluster: its placement driver, a cluster whose
    routing table is empty, and further runs. *)
#[global] Instance Mock_placement : Placement Mock := {|
  pd_NewClient := λ _ _ _ w, (None, w);
  pd_GetClusterID := λ w, (7%N, w)
|}.

Definition lostCluster : State Mock :=
  {| world := {| mRegions := []; mSends := []; mBackoffs := []; mNextBo := 1;
                 mRpcClose := None |};
     trace := [] |}.

Definition noSecurity : Security :=
  {| ClusterSSLCA := ""; ClusterSSLCert := ""; ClusterSSLKey := "" |}.

Definition put : Result Response := Ok {| Resp := Some (RawPutResponse None "") |}.
Definition swapped (prev : string) : Result Response :=
  Ok {| Resp := Some (RawCASResponse None "" true false (B prev)) |}.
Definition staleScan : Result Response :=
  Ok {| Resp := Some (RawScanResponse
                        (Some {| RegionError_String := "not leader" |})
                        [pair "q" "9"]) |}.

(** A reverse scan over both regions. *)
Definition reverseScanRun : Outcome Mock (Result (list bytes * list bytes)) :=
  ReverseScan 5 client0 (B "z") (B "a") 100
    (cluster [scanned [pair "n" "2"]; scanned [pair "c" "1"]] []).

(** A forward scan whose first answer is a region error that carries pairs. *)
Definition retriedScanRun : Outcome Mock (Result (list bytes * list bytes)) :=
  Scan 5 client0 (B "a") (B "k") 100
    (cluster [staleScan; scanned [pair "a" "1"; pair "b" "2"]] [None]).

(** A put whose first attempt hits a stale region. *)
Definition stalePut : Result Response :=
  Ok {| Resp := Some (RawPutResponse
                        (Some {| RegionError_String := "epoch not match" |}) "") |}.
Definition putRun : Outcome Mock (option Error) :=
  PutWithTTL 5 client0 (B "a") (B "1") 60 (cluster [stalePut; put] [None]).

(** The dispatch underneath it. *)
Definition retriedSendRun : Outcome Mock (Result (Response * KeyLocation)) :=
  sendReq 5 client0 (B "a") putRequest false (cluster [stalePut; put] [None]).

(** A compare-and-swap in atomic mode that expects the key to be absent. *)
Definition casRun : Outcome Mock (Result (bytes * bool)) :=
  CompareAndSwap 5 (SetAtomicForCAS true client0) (B "k") None (B "v1")
    (cluster [Ok {| Resp := Some (RawCASResponse None "" true true []) |}] []).

(** A range delete with an empty end key. *)
Definition unboundedDeleteRun : Outcome Mock (option Error) :=
  DeleteRange 5 client0 (B "a") [] (cluster [deleted] []).

(** One task of the batched range delete; the back-offer gives up. *)
Definition givenUp : Error := errors_New "backoffer.maxSleep is exceeded".
Definition taskRun : Outcome Mock (option Error) :=
  doBatchDeleteRangeReq 5 client0 9%N
    {| Region := region1; StartKey := B "a"; EndKey := B "m" |}
    (cluster [staleRegion] [Some givenUp]).

(** Batched range deletes: without a routing table, and with batches of
    zero regions. *)
Definition lostBatchDeleteRun : Outcome Mock (option Error) :=
  BatchDeleteRange 5 client0 (B "a") (B "z") 1 lostCluster.
Definition zeroBatchDeleteRun : Outcome Mock (option Error) :=
  BatchDeleteRange 5 client0 (B "a") (B "z") 0 (cluster [] []).

(** The dispatch of a batched delete and a batched write over both regions. *)
Definition batchDeleted : Result Response :=
  Ok {| Resp := Some (RawBatchDeleteResponse None "") |}.
Definition batchPut : Result Response :=
  Ok {| Resp := Some (RawBatchPutResponse None "") |}.
Definition sendBatchRun : Outcome Mock (option Response * option Error) :=
  sendBatchReq 5 client0 1%N [B "a"; B "n"] CmdRawBatchDelete
    (cluster [batchDeleted; batchDeleted] []).
Definition batchPutRun : Outcome Mock (option Error) :=
  BatchPut 5 client0 [B "a"; B "n"] [B "1"; B "2"] []
    (cluster [batchPut; batchPut] []).

(** Results read from the channel of a batch get: a failure between two
    answers. *)
Definition channelResults : list BatchResult :=
  [ {| Response_ := Some {| Resp := Some (RawBatchGetResponse None [pair "a" "1"]) |};
       Error_ := None |};
    {| Response_ := None; Error_ := Some givenUp |};
    {| Response_ := Some {| Resp := Some (RawBatchGetResponse None [pair "n" "2"]) |};
       Error_ := None |} ].
Definition collectRun : Outcome Mock (option Error * list KvPair) :=
  collectBatchResults 2%N CmdRawBatchGet channelResults None [] (cluster [] []).

(** A dispatch that meets a stale region twice; the second back-off gives up. *)
Definition exhaustedSendRun : Outcome Mock (Result (Response * KeyLocation)) :=
  sendReq 5 client0 (B "a") putRequest false
    (cluster [stalePut; stalePut] [None; Some givenUp]).

(** A batch get over both regions whose first batch hits a stale region,
    carrying a pair that must not be returned, and is planned again. *)
Definition staleBatchGet : Result Response :=
  Ok {| Resp := Some (RawBatchGetResponse
                        (Some {| RegionError_String := "epoch not match" |})
                        [pair "z" "0"]) |}.
Definition replannedBatchGetRun : Outcome Mock (Result (list bytes)) :=
  BatchGet 5 client0 [B "z"; B "a"; B "n"; B "x"]
    (cluster [staleBatchGet; fetched [pair "z" "3"; pair "n" "2"]; fetched [pair "a" "1"]]
       [None]).

(** ** Proofs *)

Section Proofs.
Context {W : Type} `{Backend W}.
Implicit Types (st : State W) (c : Client).

Lemma call_done {A} (op : W -> A * W) (ev : A -> Event) st :
  call op ev st =
  Done (op (world st)).1
    {| world := (op (world st)).2; trace := trace st ++ [ev (op (world st)).1] |}.
Proof. unfold call. destruct (op (world st)); reflexivity. Qed.

Lemma bind_run {A B} (m : M W A) (k : A -> M W B) st :
  mbind (MBind := M_bind) k m st =
  match m st with
  | Done a s' => k a s'
  | Panic s' => Panic s'
  | OutOfFuel s' => OutOfFuel s'
  end.
Proof. reflexivity. Qed.

Lemma ret_run {A} (a : A) st : mret (MRet := M_ret) a st = Done a st.
Proof. reflexivity. Qed.

Ltac run :=
  repeat first
    [ rewrite bind_run
    | rewrite ret_run
    | rewrite call_done ];
  cbn [fst snd world trace].

(** C9. [Close] closes the placement client, then the region cache, then
    the RPC transport, in that order, leaving out every sub-component that
    is nil.  Whatever subset is nil, it returns (it never panics), and it
    returns nil when the RPC transport is nil; otherwise it returns what
    the transport's [Close] returned. *)
Theorem Close_releases_in_order c st :
  ∃ r st', Close c st = Done (if rpcClient c is Some _ then r else None) st'
           ∧ trace st' = trace st ++ closeEvents c r.
Proof.
  unfold Close, closeEvents.
  destruct (pdClient c), (regionCache c), (rpcClient c); run.
  all: eexists _, _; (split; [reflexivity|]); cbn; rewrite <- ?app_assoc; cbn; try reflexivity.
  all: try (rewrite app_nil_r; reflexivity).
  Unshelve. all: exact None.
Qed.

Lemma lookup_run (reverse : bool) bo key st :
  ∃ res w,
    (if reverse then locateEndKey bo key else locateKey bo key) st =
    Done res {| world := w; trace := trace st ++ [lookupEvent reverse bo key res] |}.
Proof.
  destruct reverse; unfold locateEndKey, locateKey, lookupEvent;
    rewrite call_done; eauto.
Qed.

Lemma sendReq_loop_run fuel bo key req reverse st :
  match sendReq_loop fuel bo key req reverse st with
  | Done r st' =>
      ∃ tr, trace st' = trace st ++ tr ∧ sendReqRun bo key req reverse tr r
  | Panic _ => False
  | OutOfFuel st' =>
      ∃ tr, trace st' = trace st ++ tr ∧ regionMisses bo key req reverse fuel tr
  end.
Proof.
  revert st. induction fuel as [|fuel IH]; intros st; cbn [sendReq_loop].
  - exists []. rewrite app_nil_r. split; [reflexivity | constructor].
  - rewrite bind_run.
    destruct (lookup_run reverse bo key st) as (res & w & ->).
    destruct res as [loc|err]; run.
    2:{ eexists; split; [reflexivity | constructor]. }
    unfold senderSendReq. run.
    destruct (SendReq bo req (Region loc) ReadTimeoutShort w) as [[resp|err] w1];
      cbn [fst snd]; run.
    2:{ eexists; split; [rewrite <- app_assoc; reflexivity | constructor]. }
    destruct (GetRegionError resp) as [[regionErr|]|err] eqn:Hre; run.
    + unfold backoff. run.
      destruct (Backoff bo BoRegionMiss _ w1) as [[err|] w2]; cbn [fst snd]; run.
      * eexists; split; [rewrite <- !app_assoc; reflexivity |].
        cbn. by apply run_backoff_failed.
      * match goal with |- context [sendReq_loop fuel bo key req reverse ?s] =>
          specialize (IH s); destruct (sendReq_loop fuel bo key req reverse s) end;
          cbn [trace] in IH; try done.
        -- destruct IH as (tr & -> & Hrun).
           eexists; split; [rewrite <- !app_assoc; reflexivity |].
           cbn. by eapply run_retried.
        -- destruct IH as (tr & -> & Hrun).
           eexists; split; [rewrite <- !app_assoc; reflexivity |].
           cbn. by eapply misses_more.
    + eexists; split; [rewrite <- app_assoc; reflexivity |]. by apply run_answered.
    + eexists; split; [rewrite <- app_assoc; reflexivity |]. by apply run_inspection_failed.
Qed.

Lemma sendReqRun_no_region_error bo key req reverse tr resp loc :
  sendReqRun bo key req reverse tr (Ok (resp, loc)) -> GetRegionError resp = Ok None.
Proof.
  intros Hrun. remember (Ok (resp, loc)) as r eqn:Hr.
  induction Hrun; try discriminate; [congruence | auto].
Qed.


Lemma sendReq_trace fuel c key req reverse st :
  match sendReq fuel c key req reverse st with
  | Done r st' =>
      ∃ bo tr, trace st' = trace st ++ EvNewBackoffer rawkvMaxBackoff bo :: tr
               ∧ sendReqRun bo key req reverse tr r
  | Panic _ => False
  | OutOfFuel st' =>
      ∃ bo tr, trace st' = trace st ++ EvNewBackoffer rawkvMaxBackoff bo :: tr
               ∧ regionMisses bo key req reverse fuel tr
  end.
Proof.
  unfold sendReq, newBackoffer. run.
  match goal with |- context [sendReq_loop fuel ?bo key req reverse ?s] =>
    pose proof (sendReq_loop_run fuel bo key req reverse s) as Hl;
    destruct (sendReq_loop fuel bo key req reverse s) end;
    cbn [trace] in Hl; try done;
    destruct Hl as (tr & -> & Hrun); eexists _, tr;
    (split; [rewrite <- app_assoc; reflexivity | done]).
Qed.

Lemma appendKvs_app keys values kvs :
  appendKvs keys values kvs = (keys ++ map Key kvs, values ++ map Value kvs).
Proof.
  unfold appendKvs. revert keys values.
  induction kvs as [|pair kvs IH]; intros keys values; cbn.
  - by rewrite !app_nil_r.
  - rewrite IH. by rewrite <- !app_assoc.
Qed.

Lemma len_zero {A} (l : list A) : (len l =? 0) = true <-> l = [].
Proof.
  unfold len. rewrite Z.eqb_eq. destruct l; cbn; split; intros; try done; lia.
Qed.

Lemma scan_guard (keys : list bytes) limit startKey endKey :
  (len keys <? limit) && ((len endKey =? 0) || (bytes_Compare startKey endKey <? 0)) = true
  <-> scanContinues keys limit startKey endKey.
Proof.
  unfold scanContinues.
  rewrite andb_true_iff, orb_true_iff, !Z.ltb_lt, len_zero. tauto.
Qed.

Lemma uint32_remaining (keys : list bytes) limit :
  len keys < limit -> limit <= MaxRawKVScanLimit ->
  uint32 (limit - len keys) = limit - len keys.
Proof.
  unfold uint32, MaxRawKVScanLimit, len. intros. apply Z.mod_small. lia.
Qed.

Lemma Scan_loop_walk fuel c startKey endKey limit keys values st r st' :
  limit <= MaxRawKVScanLimit ->
  Scan_loop fuel c startKey endKey limit keys values st = Done r st' ->
  ∃ tr, trace st' = trace st ++ tr ∧ ScanWalk endKey limit startKey keys values tr r.
Proof.
  intros Hlim. revert startKey keys values st.
  induction fuel as [|fuel IH]; intros startKey keys values st; cbn [Scan_loop];
    destruct ((len keys <? limit) && _) eqn:Hg.
  all: try (rewrite ret_run; intros [= <- <-]; exists []; rewrite app_nil_r; split; [done|];
            apply scan_stops; rewrite <- scan_guard; congruence).
  - done.
  - apply scan_guard in Hg. rewrite bind_run.
    rewrite (uint32_remaining keys limit) by (destruct Hg; done).
    match goal with |- context [sendReq ?f c startKey ?q false st] =>
      pose proof (sendReq_trace f c startKey q false st) as Hs;
      destruct (sendReq f c startKey q false st) as [[[resp loc]|err] s1| |] end;
      try done; destruct Hs as (bo & tr & Htr & Hrun).
    + destruct (Resp resp) as [[]|] eqn:Hresp; try done.
      * rewrite appendKvs_app.
        destruct (len (EndKey loc) =? 0) eqn:Hend.
        -- rewrite ret_run. intros [= <- <-]. eexists; split; [done|].
           eapply scan_last_region; eauto. by apply len_zero.
        -- intros Hrest. apply IH in Hrest as (tr' & -> & Hwalk).
           rewrite Htr. eexists; split; [rewrite <- app_assoc; reflexivity|].
           cbn.
           eapply scan_next_region; eauto.
           intros Heq. apply len_zero in Heq. congruence.
      * rewrite ret_run. intros [= <- <-]. eexists; split; [done|].
        eapply scan_body_missing; eauto.
    + rewrite ret_run. intros [= <- <-]. eexists; split; [done|].
      eapply scan_dispatch_failed; eauto.
Qed.


Lemma bytes_Compare_antisym a b : bytes_Compare a b = - bytes_Compare b a.
Proof.
  revert b. induction a as [|x a IH]; intros [|y b]; cbn; try done.
  rewrite (N.compare_antisym (to_N x) (to_N y)).
  destruct (to_N x ?= to_N y)%N; cbn; auto.
Qed.

Lemma minKey_lower a b :
  bytes_Compare (minKey a b) a <= 0 ∧ bytes_Compare (minKey a b) b <= 0
  ∧ (minKey a b = a ∨ minKey a b = b).
Proof.
  assert (Hrefl : ∀ k, bytes_Compare k k = 0).
  { induction k as [|x k IH]; cbn; [done|]. by rewrite N.compare_refl. }
  unfold minKey. destruct (bytes_Compare a b <? 0) eqn:Hc.
  - apply Z.ltb_lt in Hc. rewrite Hrefl. split; [lia|]. split; [lia|]. by left.
  - apply Z.ltb_ge in Hc. rewrite Hrefl.
    rewrite (bytes_Compare_antisym b a). split; [lia|]. split; [lia|]. by right.
Qed.

Lemma actualEndKey_stepEnd (locEnd endKey : bytes) :
  (if (len locEnd >? 0) && (bytes_Compare locEnd endKey <? 0) then locEnd else endKey)
  = stepEnd locEnd endKey.
Proof.
  unfold stepEnd, minKey. destruct (decide (locEnd = [])) as [->|Hne]; [done|].
  assert ((len locEnd >? 0) = true) as ->; [|done].
  apply Z.gtb_lt. unfold len. destruct locEnd; cbn; [done | lia].
Qed.

Lemma sendDeleteRangeReq_loop_step fuel bo startKey endKey st r st' :
  sendDeleteRangeReq_loop fuel bo startKey endKey st = Done r st' ->
  ∃ tr, trace st' = trace st ++ tr ∧ DeleteStep bo startKey endKey tr r.
Proof.
  revert st. induction fuel as [|fuel IH]; intros st; cbn [sendDeleteRangeReq_loop];
    [done|].
  unfold locateKey, senderSendReq, backoff. run.
  destruct (LocateKey bo startKey (world st)) as [[loc|err] w]; cbn [fst snd]; run.
  2:{ intros [= <- <-]. eexists; split; [reflexivity | constructor]. }
  rewrite actualEndKey_stepEnd.
  destruct (SendReq bo _ (Region loc) ReadTimeoutShort w) as [[resp|err] w1];
    cbn [fst snd]; run.
  2:{ intros [= <- <-]. eexists; split; [rewrite <- app_assoc; reflexivity|].
      apply step_send_failed. }
  destruct (GetRegionError resp) as [[regionErr|]|err] eqn:Hre; run.
  - destruct (Backoff bo BoRegionMiss _ w1) as [[err|] w2]; cbn [fst snd]; run.
    + intros [= <- <-]. eexists; split; [rewrite <- !app_assoc; reflexivity|].
      by apply step_backoff_failed.
    + intros Hrest. apply IH in Hrest as (tr & -> & Hstep). cbn [trace].
      eexists; split; [rewrite <- !app_assoc; reflexivity|].
      cbn. by eapply step_retried.
  - intros [= <- <-]. eexists; split; [rewrite <- app_assoc; reflexivity|].
    by apply step_answered.
  - intros [= <- <-]. eexists; split; [rewrite <- app_assoc; reflexivity|].
    by apply step_inspection_failed.
Qed.



Lemma lastPairFor_cons key p pairs :
  lastPairFor key (p :: pairs) =
  match lastPairFor key pairs with
  | Some q => Some q
  | None => if decide (Key p = key) then Some p else None
  end.
Proof.
  unfold lastPairFor. rewrite filter_cons.
  destruct (decide (Key p = key)); [by rewrite last_cons|].
  by destruct (last (filter _ pairs)).
Qed.

Lemma lastPairFor_Some key pairs p :
  lastPairFor key pairs = Some p -> p ∈ pairs ∧ Key p = key.
Proof.
  unfold lastPairFor. intros Hl. apply last_Some_elem_of in Hl.
  apply list_elem_of_filter in Hl. tauto.
Qed.

Lemma lastPairFor_None key pairs :
  lastPairFor key pairs = None -> ∀ p, p ∈ pairs -> Key p ≠ key.
Proof.
  unfold lastPairFor. intros Hl p Hp Hk. apply last_None in Hl.
  exact (filter_nil_not_elem_of (λ q, Key q = key) pairs p Hl Hk Hp).
Qed.

Lemma foldl_insert_lookup (pairs : list KvPair) (m : gmap bytes bytes) (key : bytes) :
  foldl (λ m pair, <[Key pair := Value pair]> m) m pairs !! key =
  match lastPairFor key pairs with
  | Some p => Some (Value p)
  | None => m !! key
  end.
Proof.
  revert m. induction pairs as [|p pairs IH]; intros m; cbn [foldl]; [done|].
  rewrite IH, lastPairFor_cons. destruct (lastPairFor key pairs); [done|].
  destruct (decide (Key p = key)) as [<-|Hne].
  - by rewrite lookup_insert_eq.
  - by rewrite lookup_insert_ne.
Qed.

Lemma pairsToMap_lookup (pairs : list KvPair) (key : bytes) :
  default [] (pairsToMap pairs !! key) = default [] (Value <$> lastPairFor key pairs).
Proof.
  unfold pairsToMap. rewrite foldl_insert_lookup, lookup_empty.
  by destruct (lastPairFor key pairs).
Qed.

Lemma sendReqRun_error_last bo key req reverse tr err :
  inspectionNeverFails W ->
  sendReqRun bo key req reverse tr (Err err) ->
  ∃ e, last tr = Some e ∧ failedWith e = Some err
       ∧ isLookup e || isSend e || isBackoff e = true.
Proof.
  intros Hinspect Hrun. remember (Err err) as r eqn:Hr.
  induction Hrun as [e|loc e|loc resp e Hre|loc resp regionErr e Hre|loc resp Hre
                    |loc resp regionErr tr r Hre Hrun IH]; try discriminate.
  - injection Hr as ->. eexists. split; [reflexivity|].
    unfold lookupEvent. by destruct reverse.
  - injection Hr as ->. eexists. split; [reflexivity|]. done.
  - by apply Hinspect in Hre.
  - injection Hr as ->. eexists. split; [reflexivity|]. done.
  - destruct (IH Hr) as (e & Hlast & He). exists e. split; [|done].
    destruct tr as [|e' tr]; [done|]. by rewrite !last_cons_cons.
Qed.


(** C4. With an empty value, [PutWithTTL] and [Put] return the error
    "empty value is not supported", [CompareAndSwap] does so in atomic mode
    (and reports the missing atomic mode otherwise), and [BatchPut] with
    the empty value anywhere among its values returns an argument error.
    All of them return in the state they were called in: nothing was
    looked up and nothing was sent. *)
Theorem empty_value_rejected fuel c key (value : bytes) ttl keys (values : list bytes)
    ttls previousValue st :
  len value = 0 ->
  value ∈ values ->
  PutWithTTL fuel c key value ttl st
    = Done (Some (errors_New "empty value is not supported")) st
  ∧ Put fuel c key value st
    = Done (Some (errors_New "empty value is not supported")) st
  ∧ CompareAndSwap fuel c key previousValue value st
    = Done (Err (errors_New (if atomic c then "empty value is not supported"
                             else "using CompareAndSwap without enable atomic mode")))
        st
  ∧ (∃ e, BatchPut fuel c keys values ttls st = Done (Some e) st
          ∧ errorKind e = ArgumentError)
  ∧ errorKind (errors_New "empty value is not supported") = ArgumentError
  ∧ errorKind (errors_New "using CompareAndSwap without enable atomic mode")
    = ArgumentError.
Proof.
  intros Hlen Hin.
  assert (value = []) as -> by (destruct value; [done | unfold len in Hlen; cbn in Hlen; lia]).
  split; [done|]. split; [done|]. split.
  { unfold CompareAndSwap. by destruct (atomic c). }
  split; [|done].
  unfold BatchPut.
  destruct (negb (len keys =? len values)); [by eexists|].
  destruct ((len ttls >? 0) && negb (len keys =? len ttls)); [by eexists|].
  match goal with |- context [existsb ?f values] =>
    assert (existsb f values = true) as -> end.
  { apply existsb_exists. exists []. split; [by apply list_elem_of_In | done]. }
  by eexists.
Qed.

(** C5. With a limit above 10240, [Scan] and [ReverseScan] return
    [ErrMaxScanLimitExceeded] in the state they were called in, before any
    lookup or RPC; with the limit 10240 they go on to the region walk. *)
Theorem Scan_limit_cap fuel c startKey endKey limit st :
  limit > 10240 ->
  Scan fuel c startKey endKey limit st
    = Done (Err (errors_WithStack ErrMaxScanLimitExceeded)) st
  ∧ ReverseScan fuel c startKey endKey limit st
    = Done (Err (errors_WithStack ErrMaxScanLimitExceeded)) st
  ∧ Scan fuel c startKey endKey 10240 st
    = Scan_loop fuel c startKey endKey 10240 [] [] st
  ∧ ReverseScan fuel c startKey endKey 10240 st
    = ReverseScan_loop fuel c startKey endKey 10240 [] [] st.
Proof.
  intros Hlim. unfold Scan, ReverseScan, MaxRawKVScanLimit.
  assert ((limit >? 10240) = true) as -> by (apply Z.gtb_lt; lia).
  done.
Qed.

(** C10. With a limit of zero or less, [Scan] and [ReverseScan] return
    no keys, no values and no error, in the state they were called in. *)
Theorem Scan_nonpositive_limit fuel c startKey endKey limit st :
  limit <= 0 ->
  Scan fuel c startKey endKey limit st = Done (Ok ([], [])) st
  ∧ ReverseScan fuel c startKey endKey limit st = Done (Ok ([], [])) st.
Proof.
  intros Hlim. unfold Scan, ReverseScan, MaxRawKVScanLimit.
  assert ((limit >? 10240) = false) as ->.
  { rewrite Z.gtb_ltb. apply Z.ltb_ge. lia. }
  assert ((len (@nil bytes) <? limit) = false) as Hg.
  { apply Z.ltb_ge. unfold len. cbn. lia. }
  destruct fuel; cbn [Scan_loop ReverseScan_loop]; by rewrite Hg.
Qed.


End Proofs.


(** ** The scenarios on the scripted cluster *)


(** C2 at a failing input: with the transport down every batch task
    fails; the first error is caught and logged, and nil is returned. *)
Lemma BatchDeleteRange_drops_caught_error :
  head (omap failedWith (events failedBatchDeleteRun))
    = Some (errors_New "transport is down")
  ∧ last (logs (events failedBatchDeleteRun))
    = Some ("doBatchDeleteRangeReq in channel err",
            errors_WithStack (errors_New "transport is down"))
  ∧ result failedBatchDeleteRun = Some None.
Proof. vm_compute. done. Qed.

(** C3 at a failing input: the RPCs of a walk over two regions with
    batches of one.  The first batch also sends to the zero location, the
    second batch sends the first batch again, and every range is empty. *)
Lemma BatchDeleteRange_rpcs :
  result batchDeleteRun = Some None
  ∧ rpcs (events batchDeleteRun)
    = [ (RawDeleteRangeRequest [] [], zeroRegion);
        (RawDeleteRangeRequest (B "m") (B "m"), region1);
        (RawDeleteRangeRequest [] [], zeroRegion);
        (RawDeleteRangeRequest (B "m") (B "m"), region1);
        (RawDeleteRangeRequest (B "z") (B "z"), region2) ].
Proof. vm_compute. done. Qed.

Lemma empty_value_rejected_witness :
  len (@nil byte) = 0 ∧ [] ∈ [B "1"; []]
  ∧ PutWithTTL 3 client0 (B "k") [] 60 (cluster [] [])
    = Done (Some (errors_New "empty value is not supported")) (cluster [] [])
  ∧ ∃ e, BatchPut 3 client0 [B "a"; B "b"] [B "1"; []] [] (cluster [] [])
         = Done (Some e) (cluster [] [])
         ∧ errorKind e = ArgumentError.
Proof.
  assert (Hin : [] ∈ [B "1"; []]) by (apply list_elem_of_In; vm_compute; auto).
  destruct (empty_value_rejected 3 client0 (B "k") [] 60%N [B "a"; B "b"] [B "1"; []]
              [] None (cluster [] []) eq_refl Hin) as (Hput & _ & _ & Hbatch & _).
  split; [reflexivity|]. split; [exact Hin|]. split; [exact Hput | exact Hbatch].
Defined.

Lemma Scan_limit_cap_witness :
  10241 > 10240
  ∧ Scan 3 client0 (B "a") (B "z") 10241 (cluster [] [])
    = Done (Err (errors_WithStack ErrMaxScanLimitExceeded)) (cluster [] [])
  ∧ ReverseScan 3 client0 (B "z") (B "a") 10241 (cluster [] [])
    = Done (Err (errors_WithStack ErrMaxScanLimitExceeded)) (cluster [] []).
Proof.
  assert (Hlim : 10241 > 10240) by lia.
  split; [exact Hlim|]. split.
  - exact (proj1 (Scan_limit_cap 3 client0 (B "a") (B "z") 10241 (cluster [] []) Hlim)).
  - exact (proj1 (proj2
             (Scan_limit_cap 3 client0 (B "z") (B "a") 10241 (cluster [] []) Hlim))).
Defined.

Lemma Scan_nonpositive_limit_witness :
  -1 <= 0
  ∧ Scan 0 client0 (B "a") (B "z") (-1) (cluster [] []) = Done (Ok ([], [])) (cluster [] [])
  ∧ ReverseScan 0 client0 (B "z") (B "a") (-1) (cluster [] [])
    = Done (Ok ([], [])) (cluster [] []).
Proof.
  assert (Hlim : -1 <= 0) by lia.
  split; [exact Hlim|]. split.
  - exact (proj1 (Scan_nonpositive_limit 0 client0 (B "a") (B "z") (-1) (cluster [] []) Hlim)).
  - exact (proj2 (Scan_nonpositive_limit 0 client0 (B "z") (B "a") (-1) (cluster [] []) Hlim)).
Defined.



(** ** More proofs *)

Section MoreProofs.
Context {W : Type} `{Backend W}.
Implicit Types (st : State W) (c : Client).

Ltac run :=
  repeat first
    [ rewrite bind_run
    | rewrite ret_run
    | rewrite call_done ];
  cbn [fst snd world trace].

Lemma reverse_guard (keys : list bytes) limit startKey endKey :
  (len keys <? limit) && (bytes_Compare startKey endKey >? 0) = true
  <-> reverseContinues keys limit startKey endKey.
Proof.
  unfold reverseContinues.
  rewrite andb_true_iff, Z.ltb_lt, Z.gtb_lt. lia.
Qed.

Lemma ReverseScan_loop_walk fuel c startKey endKey limit keys values st r st' :
  limit <= MaxRawKVScanLimit ->
  ReverseScan_loop fuel c startKey endKey limit keys values st = Done r st' ->
  ∃ tr, trace st' = trace st ++ tr
        ∧ ReverseWalk endKey limit startKey keys values tr r.
Proof.
  intros Hlim. revert startKey keys values st.
  induction fuel as [|fuel IH]; intros startKey keys values st; cbn [ReverseScan_loop];
    destruct ((len keys <? limit) && _) eqn:Hg.
  all: try (rewrite ret_run; intros [= <- <-]; exists []; rewrite app_nil_r; split; [done|];
            apply reverse_stops; rewrite <- reverse_guard; congruence).
  - done.
  - apply reverse_guard in Hg. rewrite bind_run.
    rewrite (uint32_remaining keys limit) by (destruct Hg; done).
    match goal with |- context [sendReq ?f c startKey ?q true st] =>
      pose proof (sendReq_trace f c startKey q true st) as Hs;
      destruct (sendReq f c startKey q true st) as [[[resp loc]|err] s1| |] end;
      try done; destruct Hs as (bo & tr & Htr & Hrun).
    + destruct (Resp resp) as [[]|] eqn:Hresp; try done.
      * rewrite appendKvs_app.
        destruct (len (StartKey loc) =? 0) eqn:Hend.
        -- rewrite ret_run. intros [= <- <-]. eexists; split; [done|].
           eapply reverse_first_region; eauto. by apply len_zero.
        -- intros Hrest. apply IH in Hrest as (tr' & -> & Hwalk).
           rewrite Htr. eexists; split; [rewrite <- app_assoc; reflexivity|].
           cbn. eapply reverse_previous_region; eauto.
           intros Heq. apply len_zero in Heq. congruence.
      * rewrite ret_run. intros [= <- <-]. eexists; split; [done|].
        eapply reverse_body_missing; eauto.
    + rewrite ret_run. intros [= <- <-]. eexists; split; [done|].
      eapply reverse_dispatch_failed; eauto.
Qed.

(** X1. A reverse scan that returns has walked the regions as
    [ReverseWalk] describes: it goes on exactly while fewer than [limit]
    pairs are accumulated and the start is above the end; each iteration
    dispatches a reverse scan request for the remaining limit, located by
    the end key of a region, appends the answer, moves the start to the
    start key of the located region and stops when that key is empty. *)
Theorem ReverseScan_walks_regions fuel c startKey endKey limit st r st' :
  limit <= MaxRawKVScanLimit ->
  ReverseScan fuel c startKey endKey limit st = Done r st' ->
  ∃ tr, trace st' = trace st ++ tr ∧ ReverseWalk endKey limit startKey [] [] tr r.
Proof.
  intros Hlim. unfold ReverseScan.
  assert ((limit >? MaxRawKVScanLimit) = false) as ->.
  { rewrite Z.gtb_ltb. apply Z.ltb_ge. lia. }
  by apply ReverseScan_loop_walk.
Qed.

(** *** What a scan returns *)

Lemma scanAnswers_app tr1 tr2 :
  scanAnswers (tr1 ++ tr2) = scanAnswers tr1 ++ scanAnswers tr2.
Proof. apply flat_map_app. Qed.

Lemma sendReqRun_scanAnswers bo key req reverse tr resp loc :
  sendReqRun bo key req reverse tr (Ok (resp, loc)) ->
  scanAnswers tr = match Resp resp with
                   | Some (RawScanResponse _ kvs) => kvs
                   | _ => []
                   end.
Proof.
  intros Hrun. remember (Ok (resp, loc)) as r eqn:Hr.
  induction Hrun as [e|loc0 e|loc0 resp0 e Hre|loc0 resp0 regionErr e Hre|loc0 resp0 Hre
                    |loc0 resp0 regionErr tr r Hre Hrun IH]; try discriminate.
  - injection Hr as -> ->. unfold scanAnswers, lookupEvent. destruct reverse; cbn;
      rewrite Hre, app_nil_r; by destruct (Resp resp) as [[]|].
  - rewrite <- (IH Hr). unfold scanAnswers, lookupEvent. destruct reverse; cbn;
      by rewrite Hre.
Qed.

Lemma ScanWalk_answers endKey limit startKey keys values tr ks vs :
  ScanWalk endKey limit startKey keys values tr (Ok (ks, vs)) ->
  ks = keys ++ map Key (scanAnswers tr) ∧ vs = values ++ map Value (scanAnswers tr).
Proof.
  intros Hwalk. remember (Ok (ks, vs)) as r eqn:Hr.
  induction Hwalk as [s k v Hstop|s k v bo tr resp loc re kvs Hc Hrun Hresp Hend
                     |s k v bo tr resp loc re kvs tr' r Hc Hrun Hresp Hend Hwalk IH
                     |s k v bo tr err Hc Hrun|s k v bo tr resp loc Hc Hrun Hresp];
    try discriminate.
  - injection Hr as <- <-. cbn. by rewrite !app_nil_r.
  - injection Hr as <- <-. apply sendReqRun_scanAnswers in Hrun.
    rewrite Hresp in Hrun. change (scanAnswers (?e :: tr)) with (scanAnswers tr).
    by rewrite Hrun.
  - destruct (IH Hr) as [-> ->]. apply sendReqRun_scanAnswers in Hrun.
    rewrite Hresp in Hrun. change (scanAnswers (?e :: ?t)) with (scanAnswers t).
    rewrite scanAnswers_app, Hrun, !map_app, <- !app_assoc. done.
Qed.

(** X2. What a successful forward scan returns is the concatenation, in
    the order they were received, of the pairs of the scan responses that
    came back without a region error; pairs carried by a response with a
    region error are not returned.  Keys and values have the same length. *)
Theorem Scan_returns_answers fuel c startKey endKey limit st ks vs st' :
  Scan fuel c startKey endKey limit st = Done (Ok (ks, vs)) st' ->
  ∃ tr, trace st' = trace st ++ tr
        ∧ ks = map Key (scanAnswers tr) ∧ vs = map Value (scanAnswers tr)
        ∧ length ks = length vs.
Proof.
  unfold Scan. destruct (limit >? MaxRawKVScanLimit) eqn:Hlim; [done|].
  intros Hrun. apply Scan_loop_walk in Hrun as (tr & Htr & Hwalk).
  2:{ rewrite Z.gtb_ltb in Hlim. apply Z.ltb_ge in Hlim. lia. }
  apply ScanWalk_answers in Hwalk as [-> ->]. exists tr. cbn.
  split; [done|]. split; [done|]. split; [done|]. by rewrite !length_map.
Qed.

Lemma ReverseWalk_answers endKey limit startKey keys values tr ks vs :
  ReverseWalk endKey limit startKey keys values tr (Ok (ks, vs)) ->
  ks = keys ++ map Key (scanAnswers tr) ∧ vs = values ++ map Value (scanAnswers tr).
Proof.
  intros Hwalk. remember (Ok (ks, vs)) as r eqn:Hr.
  induction Hwalk as [s k v Hstop|s k v bo tr resp loc re kvs Hc Hrun Hresp Hend
                     |s k v bo tr resp loc re kvs tr' r Hc Hrun Hresp Hend Hwalk IH
                     |s k v bo tr err Hc Hrun|s k v bo tr resp loc Hc Hrun Hresp];
    try discriminate.
  - injection Hr as <- <-. cbn. by rewrite !app_nil_r.
  - injection Hr as <- <-. apply sendReqRun_scanAnswers in Hrun.
    rewrite Hresp in Hrun. change (scanAnswers (?e :: tr)) with (scanAnswers tr).
    by rewrite Hrun.
  - destruct (IH Hr) as [-> ->]. apply sendReqRun_scanAnswers in Hrun.
    rewrite Hresp in Hrun. change (scanAnswers (?e :: ?t)) with (scanAnswers t).
    rewrite scanAnswers_app, Hrun, !map_app, <- !app_assoc. done.
Qed.

(** X3. The same for a successful reverse scan. *)
Theorem ReverseScan_returns_answers fuel c startKey endKey limit st ks vs st' :
  ReverseScan fuel c startKey endKey limit st = Done (Ok (ks, vs)) st' ->
  ∃ tr, trace st' = trace st ++ tr
        ∧ ks = map Key (scanAnswers tr) ∧ vs = map Value (scanAnswers tr)
        ∧ length ks = length vs.
Proof.
  unfold ReverseScan. destruct (limit >? MaxRawKVScanLimit) eqn:Hlim; [done|].
  intros Hrun. apply ReverseScan_loop_walk in Hrun as (tr & Htr & Hwalk).
  2:{ rewrite Z.gtb_ltb in Hlim. apply Z.ltb_ge in Hlim. lia. }
  apply ReverseWalk_answers in Hwalk as [-> ->]. exists tr. cbn.
  split; [done|]. split; [done|]. split; [done|]. by rewrite !length_map.
Qed.


(** *** Empty ranges and mismatched batches *)

Lemma bytes_Compare_nil_l (b : bytes) : bytes_Compare [] b <= 0.
Proof. destruct b; cbn; lia. Qed.

(** X5. Below the limit cap, a forward scan whose non-empty end key is
    not above the start key, and a reverse scan whose start key is not
    above the end key, return nothing and touch nothing.  In particular a
    reverse scan from the empty start key returns nothing, whatever the
    end key, without an error. *)
Theorem scan_of_empty_range fuel c startKey endKey limit st :
  limit <= MaxRawKVScanLimit ->
  (endKey ≠ [] -> bytes_Compare startKey endKey >= 0 ->
   Scan fuel c startKey endKey limit st = Done (Ok ([], [])) st)
  ∧ (bytes_Compare startKey endKey <= 0 ->
     ReverseScan fuel c startKey endKey limit st = Done (Ok ([], [])) st)
  ∧ ReverseScan fuel c [] endKey limit st = Done (Ok ([], [])) st.
Proof.
  intros Hlim.
  assert ((limit >? MaxRawKVScanLimit) = false) as Hcap.
  { rewrite Z.gtb_ltb. apply Z.ltb_ge. lia. }
  assert (Hrev : ∀ s, bytes_Compare s endKey <= 0 ->
            ReverseScan fuel c s endKey limit st = Done (Ok ([], [])) st).
  { intros s Hle. unfold ReverseScan. rewrite Hcap.
    assert ((bytes_Compare s endKey >? 0) = false) as Hg.
    { rewrite Z.gtb_ltb. apply Z.ltb_ge. lia. }
    destruct fuel; cbn [ReverseScan_loop]; by rewrite Hg, andb_false_r. }
  split; [|split; [apply Hrev | apply Hrev, bytes_Compare_nil_l]].
  intros Hne Hge. unfold Scan. rewrite Hcap.
  assert ((len endKey =? 0) = false) as Hne'.
  { destruct (len endKey =? 0) eqn:Hz; [|done]. by apply len_zero in Hz. }
  assert ((bytes_Compare startKey endKey <? 0) = false) as Hg by (apply Z.ltb_ge; lia).
  destruct fuel; cbn [Scan_loop]; by rewrite Hne', Hg, andb_false_r.
Qed.

(** X9. [BatchPut] with as many values as keys missing, or with TTLs
    given but not one per key, returns the matching argument error in the
    state it was called in. *)
Theorem BatchPut_length_mismatch fuel c (keys values : list bytes) (ttls : list N) st :
  len keys ≠ len values ∨ (len ttls > 0 ∧ len keys ≠ len ttls) ->
  ∃ e, BatchPut fuel c keys values ttls st = Done (Some e) st
       ∧ errorKind e = ArgumentError
       ∧ e = errors_New (if decide (len keys = len values)
                         then "the len of ttls is not equal to the len of values"
                         else "the len of keys is not equal to the len of values").
Proof.
  intros Hbad. unfold BatchPut.
  destruct (decide (len keys = len values)) as [Heq|Hne].
  - assert ((len keys =? len values) = true) as -> by (by apply Z.eqb_eq).
    destruct Hbad as [?|[Hpos Hne]]; [done|].
    assert ((len ttls >? 0) = true) as -> by (apply Z.gtb_lt; lia).
    assert ((len keys =? len ttls) = false) as -> by (by apply Z.eqb_neq).
    by eexists.
  - assert ((len keys =? len values) = false) as -> by (by apply Z.eqb_neq).
    by eexists.
Qed.

(** *** The maps of a batched write *)

Lemma lastValueAt_cons {A} key k (x : A) keys xs :
  lastValueAt key (k :: keys) (x :: xs) =
  match lastValueAt key keys xs with
  | Some y => Some y
  | None => if decide (k = key) then Some x else None
  end.
Proof.
  unfold lastValueAt. cbn [zip zip_with]. rewrite filter_cons. cbn.
  destruct (decide (k = key)).
  - rewrite last_cons. by destruct (last _).
  - by destruct (last _).
Qed.

Lemma lastValueAt_nil_r {A} key keys : lastValueAt (A := A) key keys [] = None.
Proof. unfold lastValueAt. by destruct keys. Qed.

Lemma lastValueAt_nil_l {A} key (xs : list A) : lastValueAt key [] xs = None.
Proof. reflexivity. Qed.

Lemma putMaps_Some (keys : list bytes) i (values : list bytes) (ttls : list N) kv kt :
  (length keys + i <= length values)%nat ->
  ttls = [] ∨ (length keys + i <= length ttls)%nat ->
  ∃ kv' kt',
    putMaps keys i values ttls kv kt = Some (kv', kt')
    ∧ (∀ key, kv' !! key = match lastValueAt key keys (drop i values) with
                           | Some v => Some v
                           | None => kv !! key
                           end)
    ∧ (∀ key, kt' !! key = match lastValueAt key keys (drop i ttls) with
                           | Some t => Some t
                           | None => kt !! key
                           end).
Proof.
  revert i kv kt. induction keys as [|k keys IH]; intros i kv kt Hv Ht; cbn [putMaps].
  - exists kv, kt. split; [done|]. split; intros key; by rewrite lastValueAt_nil_l.
  - cbn [length] in Hv, Ht.
    destruct (values !! i) as [v|] eqn:Hvi.
    2:{ apply lookup_ge_None in Hvi. exfalso. lia. }
    rewrite (drop_S _ _ _ Hvi).
    destruct Ht as [->|Ht].
    + cbn. destruct (IH (S i) (<[k:=v]> kv) kt) as (kv' & kt' & -> & Hkv & Hkt);
        [lia | by left |].
      exists kv', kt'. split; [done|]. split; intros key.
      * rewrite Hkv, lastValueAt_cons. destruct (lastValueAt key keys _); [done|].
        destruct (decide (k = key)) as [->|?];
          [by rewrite lookup_insert_eq | by rewrite lookup_insert_ne].
      * rewrite Hkt. by rewrite !drop_nil, !lastValueAt_nil_r.
    + destruct (ttls !! i) as [t|] eqn:Hti.
      2:{ apply lookup_ge_None in Hti. exfalso. lia. }
      assert ((len ttls >? 0) = true) as ->.
      { apply Z.gtb_lt. unfold len. apply lookup_lt_Some in Hti. lia. }
      rewrite (drop_S _ _ _ Hti).
      destruct (IH (S i) (<[k:=v]> kv) (<[k:=t]> kt)) as (kv' & kt' & -> & Hkv & Hkt);
        [lia | right; lia |].
      exists kv', kt'. split; [done|]. split; intros key.
      * rewrite Hkv, lastValueAt_cons. destruct (lastValueAt key keys _); [done|].
        destruct (decide (k = key)) as [->|?];
          [by rewrite lookup_insert_eq | by rewrite lookup_insert_ne].
      * rewrite Hkt, lastValueAt_cons. destruct (lastValueAt key keys _); [done|].
        destruct (decide (k = key)) as [->|?];
          [by rewrite lookup_insert_eq | by rewrite lookup_insert_ne].
Qed.

Lemma putMaps_None (keys : list bytes) i (values : list bytes) (ttls : list N) kv kt :
  (i <= length values)%nat ->
  (length values < length keys + i)%nat ->
  putMaps keys i values ttls kv kt = None.
Proof.
  revert i kv kt. induction keys as [|k keys IH]; intros i kv kt Hi Hv; cbn [putMaps].
  - cbn in Hv. exfalso. lia.
  - cbn [length] in Hv. destruct (values !! i) as [v|] eqn:Hvi; [|done].
    apply lookup_lt_Some in Hvi.
    destruct (len ttls >? 0); [destruct (ttls !! i)|]; try done; apply IH; lia.
Qed.

(** X10. When there is one value per key, and no TTL or one per key, the
    first loop of [sendBatchPut] does not index out of range, and the maps
    it builds hold for every key the value and the TTL at the last
    position where the key occurs. *)
Theorem sendBatchPut_maps (keys values : list bytes) (ttls : list N) :
  length keys = length values ->
  ttls = [] ∨ length ttls = length keys ->
  ∃ keyToValue keyTottl,
    putMaps keys O values ttls ∅ ∅ = Some (keyToValue, keyTottl)
    ∧ (∀ key, keyToValue !! key = lastValueAt key keys values)
    ∧ (∀ key, keyTottl !! key = lastValueAt key keys ttls).
Proof.
  intros Hv Ht.
  destruct (putMaps_Some keys O values ttls ∅ ∅) as (kv & kt & Hm & Hkv & Hkt);
    [lia | destruct Ht; [by left | right; lia] |].
  exists kv, kt. split; [done|]. split; intros key.
  - rewrite Hkv, drop_0, lookup_empty. by destruct (lastValueAt key keys values).
  - rewrite Hkt, drop_0, lookup_empty. by destruct (lastValueAt key keys ttls).
Qed.

(** X11. With fewer values than keys [sendBatchPut] panics on the index
    before anything is looked up or sent. *)
Theorem sendBatchPut_short_values fuel c bo (keys values : list bytes) (ttls : list N) st :
  (length values < length keys)%nat ->
  sendBatchPut (S fuel) c bo keys values ttls st = Panic st.
Proof.
  intros Hshort. cbn [sendBatchPut].
  rewrite (putMaps_None keys O values ttls ∅ ∅) by lia. done.
Qed.

(** *** What a dispatch sends *)

Lemma requests_app tr1 tr2 : requests (tr1 ++ tr2) = requests tr1 ++ requests tr2.
Proof. apply omap_app. Qed.

Lemma sendReqRun_requests bo key req reverse tr r :
  sendReqRun bo key req reverse tr r -> Forall (eq req) (requests tr).
Proof.
  induction 1; unfold lookupEvent; destruct reverse; cbn; repeat constructor; done.
Qed.

Lemma regionMisses_requests bo key req reverse n tr :
  regionMisses bo key req reverse n tr -> Forall (eq req) (requests tr).
Proof.
  induction 1; unfold lookupEvent; [constructor|];
    destruct reverse; cbn; repeat constructor; done.
Qed.

Lemma sendReqRun_last_answer bo key req reverse tr resp loc :
  sendReqRun bo key req reverse tr (Ok (resp, loc)) ->
  last tr = Some (sendEvent bo req loc (Ok resp)) ∧ GetRegionError resp = Ok None.
Proof.
  intros Hrun. remember (Ok (resp, loc)) as r eqn:Hr.
  induction Hrun as [e|loc0 e|loc0 resp0 e Hre|loc0 resp0 regionErr e Hre|loc0 resp0 Hre
                    |loc0 resp0 regionErr tr r Hre Hrun IH]; try discriminate.
  - by injection Hr as -> ->.
  - destruct (IH Hr) as [Hlast ?]. split; [|done].
    destruct tr as [|e tr]; [done|]. by rewrite !last_cons_cons.
Qed.

(** What any call of [sendReq] has sent, however it ended. *)
Lemma sendReq_requests fuel c key req reverse st :
  ∃ tr, events (sendReq fuel c key req reverse st) = trace st ++ tr
        ∧ Forall (eq req) (requests tr)
        ∧ ∀ resp loc,
            result (sendReq fuel c key req reverse st) = Some (Ok (resp, loc)) ->
            ∃ bo, last tr = Some (sendEvent bo req loc (Ok resp))
                  ∧ GetRegionError resp = Ok None.
Proof.
  pose proof (sendReq_trace fuel c key req reverse st) as Hs.
  destruct (sendReq fuel c key req reverse st) as [r st'| |]; try done;
    destruct Hs as (bo & tr & Htr & Hrun); cbn [events result];
    exists (EvNewBackoffer rawkvMaxBackoff bo :: tr); (split; [done|]); split.
  - change (requests (?e :: tr)) with (requests tr). by eapply sendReqRun_requests.
  - intros resp loc [= ->]. exists bo.
    destruct (sendReqRun_last_answer _ _ _ _ _ _ _ Hrun) as [Hlast ?]. split; [|done].
    destruct tr as [|e tr]; [done|]. by rewrite last_cons_cons.
  - change (requests (?e :: tr)) with (requests tr). by eapply regionMisses_requests.
  - done.
Qed.

(** X7. With a non-empty value, the first request [PutWithTTL] hands to
    the sender is the put request as it was built, without an
    execution-time budget, and every request it sends, however it ends, is
    a put request for the key, the value and the TTL, tagged with the mode
    of the client.  When it returns nil, the last event is the answer to
    such a request: a put response without region error and without error
    text. *)
Theorem PutWithTTL_dispatch fuel c key (value : bytes) ttl st :
  len value ≠ 0 ->
  ∃ tr, events (PutWithTTL fuel c key value ttl st) = trace st ++ tr
        ∧ Forall (putRequestFor c key value ttl) (requests tr)
        ∧ (∀ req, head (requests tr) = Some req ->
             req = NewRequest CmdRawPut (RawPutRequest key value ttl (atomic c)))
        ∧ (result (PutWithTTL fuel c key value ttl st) = Some None ->
           ∃ bo req loc resp regionErr,
             last tr = Some (sendEvent bo req loc (Ok resp))
             ∧ putRequestFor c key value ttl req
             ∧ GetRegionError resp = Ok None
             ∧ Resp resp = Some (RawPutResponse regionErr "")).
Proof.
  intros Hlen. unfold PutWithTTL.
  assert ((len value =? 0) = false) as -> by (by apply Z.eqb_neq).
  set (req := NewRequest CmdRawPut (RawPutRequest key value ttl (atomic c))).
  rewrite bind_run.
  destruct (sendReq_requests fuel c key req false st) as (tr & Htr & Hreq & Hans).
  assert (Hput : putRequestFor c key value ttl req) by done.
  assert (Hall : Forall (putRequestFor c key value ttl) (requests tr)).
  { eapply Forall_impl; [exact Hreq|]. by intros q <-. }
  assert (Hfirst : ∀ q, head (requests tr) = Some q -> q = req).
  { intros q Hq. destruct (requests tr) as [|q' qs]; [done|].
    injection Hq as ->. by apply Forall_cons in Hreq as [-> _]. }
  exists tr. destruct (sendReq fuel c key req false st) as [[[resp loc]|err] s1| |];
    cbn [events result] in *; try done.
  destruct (Hans resp loc eq_refl) as (bo & Hlast & Hre).
  destruct (Resp resp) as [[]|] eqn:Hresp; try done.
  case_decide as He; [done|].
  split; [done|]. split; [done|]. split; [done|]. intros _.
  exists bo, req, loc, resp, regionErr. repeat split; try done.
  destruct (decide (error = "")) as [->|?]; done.
Qed.

(** X8. In atomic mode and with a non-empty new value, every request
    [CompareAndSwap] sends is the compare-and-swap request with the
    write-time budget; it asks for the key to be absent exactly when the
    previous value is nil.  When it returns a result, the last event is the
    answer it was read from, and the previous value returned is nil when
    the answer says the key did not exist. *)
Theorem CompareAndSwap_dispatch fuel c key previousValue (newValue : bytes) st :
  atomic c = true ->
  len newValue ≠ 0 ->
  let req := withMaxExecutionDurationMs MaxWriteExecutionTimeMs
               (NewRequest CmdRawCompareAndSwap
                  (RawCASRequest key newValue (bool_decide (previousValue = None))
                     (default [] previousValue))) in
  ∃ tr, events (CompareAndSwap fuel c key previousValue newValue st) = trace st ++ tr
        ∧ Forall (eq req) (requests tr)
        ∧ ∀ prev succeed,
            result (CompareAndSwap fuel c key previousValue newValue st)
              = Some (Ok (prev, succeed)) ->
            ∃ bo loc resp regionErr notExist stored,
              last tr = Some (sendEvent bo req loc (Ok resp))
              ∧ GetRegionError resp = Ok None
              ∧ Resp resp = Some (RawCASResponse regionErr "" succeed notExist stored)
              ∧ prev = if notExist then [] else stored.
Proof.
  intros Hat Hlen req.
  assert (Hsame :
    CompareAndSwap fuel c key previousValue newValue st =
    match sendReq fuel c key req false st with
    | Done (Err err) s => Done (Err err) s
    | Done (Ok (resp, _)) s =>
        match Resp resp with
        | None => Done (Err (errors_WithStack ErrBodyMissing)) s
        | Some (RawCASResponse _ e succeed notExist stored) =>
            if decide (e ≠ "") then Done (Err (errors_New e)) s
            else Done (Ok (if notExist then [] else stored, succeed)) s
        | Some _ => Panic s
        end
    | Panic s => Panic s
    | OutOfFuel s => OutOfFuel s
    end).
  { unfold CompareAndSwap. rewrite Hat. cbn [negb].
    assert ((len newValue =? 0) = false) as -> by (by apply Z.eqb_neq).
    subst req. destruct previousValue as [p|];
      [rewrite bool_decide_eq_false_2 by done | rewrite bool_decide_eq_true_2 by done];
      cbn [default]; cbv zeta; rewrite bind_run;
      (destruct (sendReq fuel c key _ false st) as [[[resp loc]|err] s1| |]; [|done..]);
      (destruct (Resp resp) as [[]|]; try done);
      case_decide; try done; by destruct previousNotExist. }
  rewrite Hsame. clear Hsame.
  destruct (sendReq_requests fuel c key req false st) as (tr & Htr & Hreq & Hans).
  exists tr. destruct (sendReq fuel c key req false st) as [[[resp loc]|err] s1| |];
    cbn [events result] in *; try done.
  destruct (Hans resp loc eq_refl) as (bo & Hlast & Hre).
  destruct (Resp resp) as [[]|] eqn:Hresp; try done.
  case_decide as He; [done|].
  assert (error = "") as -> by (by destruct (decide (error = ""))).
  split; [done|]. split; [done|]. intros prev ok [= <- <-].
  by exists bo, loc, resp, regionErr, previousNotExist, previousValue0.
Qed.

(** *** Attempts of the dispatcher *)

Lemma sendReqRun_attempts bo key req reverse tr r :
  sendReqRun bo key req reverse tr r ->
  (count isBackoff tr <= count isSend tr <= count isLookup tr)%nat
  ∧ (count isLookup tr <= count isBackoff tr + 1)%nat
  ∧ match r with
    | Ok _ => count isSend tr = count isLookup tr
              ∧ count isLookup tr = (count isBackoff tr + 1)%nat
    | Err _ => True
    end.
Proof.
  unfold count.
  induction 1 as [e|loc e|loc resp e Hre|loc resp regionErr e Hre|loc resp Hre
                 |loc resp regionErr tr r Hre Hrun IH];
    unfold lookupEvent; destruct reverse; cbn; try lia.
  all: destruct IH as (? & ? & IH); destruct r; cbn in *; lia.
Qed.

(** X6. In a call of [sendReq] that returns, every send follows a lookup
    of its own and every retry follows a back-off of its own: there are no
    more back-offs than sends, no more sends than lookups, and at most one
    lookup more than back-offs.  When it returns a response, sends and
    lookups are as many, one more than back-offs. *)
Theorem sendReq_attempts fuel c key req reverse st r st' :
  sendReq fuel c key req reverse st = Done r st' ->
  ∃ tr, trace st' = trace st ++ tr
        ∧ (count isBackoff tr <= count isSend tr <= count isLookup tr)%nat
        ∧ (count isLookup tr <= count isBackoff tr + 1)%nat
        ∧ match r with
          | Ok _ => count isSend tr = count isLookup tr
                    ∧ count isLookup tr = (count isBackoff tr + 1)%nat
          | Err _ => True
          end.
Proof.
  intros Hrun. pose proof (sendReq_trace fuel c key req reverse st) as Hs.
  rewrite Hrun in Hs. destruct Hs as (bo & tr & Htr & Hr).
  exists (EvNewBackoffer rawkvMaxBackoff bo :: tr). split; [done|].
  apply sendReqRun_attempts in Hr. exact Hr.
Qed.


(** *** Collecting the results of a fan-out *)

Lemma catchFirstError_trace bo es err st :
  ∃ r st',
    catchFirstError bo es err st = Done r st'
    ∧ trace st' = trace st ++ replicate (length (failures es)) (EvCancel bo).
Proof.
  revert err st. induction es as [|[e|] es IH]; intros err st; cbn [catchFirstError].
  - exists err, st. by rewrite ret_run, app_nil_r.
  - unfold cancel. run.
    match goal with |- context [catchFirstError bo es ?err' ?s] =>
      destruct (IH err' s) as (r & st' & -> & Htr) end.
    exists r, st'. cbn [trace] in Htr. split; [done|].
    rewrite Htr, <- app_assoc. done.
  - apply IH.
Qed.

(** X15. The receive loop of [sendBatchPut] and [BatchDeleteRange] always
    returns.  It keeps an error caught earlier; otherwise it returns the
    first error read from the channel, wrapped by [errors.WithStack], or
    nil when no task failed.  It cancels the forked back-offer once per
    failed task and does nothing else. *)
Theorem catchFirstError_first_wins bo es err st :
  ∃ st',
    catchFirstError bo es err st
      = Done (match err with
              | Some e => Some e
              | None => errors_WithStack <$> head (failures es)
              end) st'
    ∧ trace st' = trace st ++ replicate (length (failures es)) (EvCancel bo).
Proof.
  revert err st. induction es as [|[e|] es IH]; intros err st; cbn [catchFirstError].
  - exists st. rewrite ret_run, app_nil_r. by destruct err.
  - unfold cancel. run.
    match goal with |- context [catchFirstError bo es ?err' ?s] =>
      destruct (IH err' s) as (st' & -> & Htr) end.
    exists st'. cbn [trace] in Htr. split; [by destruct err|].
    rewrite Htr, <- app_assoc. done.
  - apply IH.
Qed.

Lemma collectBatchResults_trace bo cmdType rs firstError pairs st r st' :
  collectBatchResults bo cmdType rs firstError pairs st = Done r st' ->
  trace st' = trace st ++ replicate (length (omap Error_ rs)) (EvCancel bo).
Proof.
  revert firstError pairs st.
  induction rs as [|[resp err] rs IH]; intros firstError pairs st;
    cbn [collectBatchResults Error_ Response_].
  - rewrite ret_run. intros [= <- <-]. cbn. by rewrite app_nil_r.
  - destruct err as [e|].
    + unfold cancel. run. intros Hrest. apply IH in Hrest as ->.
      cbn [trace omap Error_]. by rewrite <- app_assoc.
    + destruct (decide (cmdType = CmdRawBatchGet)); [|apply IH].
      destruct resp as [[[body|]]|]; try done. destruct body; try done. apply IH.
Qed.

(** X14. When the receive loop of [sendBatchReq] returns, its error is
    the first error read from the channel (wrapped), the pairs of a batch
    get are those of the successful results in the order they were read,
    a batch delete collects no pairs, and the forked back-offer was
    cancelled once per failed result. *)
Theorem collectBatchResults_merges bo cmdType rs firstError pairs st firstError' pairs' st' :
  collectBatchResults bo cmdType rs firstError pairs st = Done (firstError', pairs') st' ->
  firstError' = match firstError with
                | Some e => Some e
                | None => errors_WithStack <$> head (omap Error_ rs)
                end
  ∧ pairs' = pairs ++ (if decide (cmdType = CmdRawBatchGet)
                       then flat_map resultPairs rs else [])
  ∧ trace st' = trace st ++ replicate (length (omap Error_ rs)) (EvCancel bo).
Proof.
  revert firstError pairs st.
  induction rs as [|[resp err] rs IH]; intros firstError pairs st;
    cbn [collectBatchResults Error_ Response_].
  - rewrite ret_run. intros [= <- <- <-]. cbn.
    split; [by destruct firstError|]. split; [|by rewrite app_nil_r].
    destruct (decide (cmdType = CmdRawBatchGet)); cbn; by rewrite app_nil_r.
  - destruct err as [e|].
    + unfold cancel. run. intros Hrest. apply IH in Hrest as (-> & -> & ->).
      cbn [trace omap Error_ head]. split; [by destruct firstError|].
      split; [|by rewrite <- app_assoc].
      by destruct (decide (cmdType = CmdRawBatchGet)).
    + destruct (decide (cmdType = CmdRawBatchGet)) as [Hget|Hget].
      * destruct resp as [[[body|]]|]; try done. destruct body; try done.
        intros Hrest. apply IH in Hrest as (-> & -> & ->).
        cbn. by rewrite <- app_assoc.
      * intros Hrest. apply IH in Hrest as (-> & -> & ->).
        done.
Qed.

Lemma sendBatchReq_delete_response fuel c bo keys st resp s :
  sendBatchReq fuel c bo keys CmdRawBatchDelete st = Done (resp, None) s ->
  resp = Some {| Resp := Some (RawBatchDeleteResponse None "") |}.
Proof.
  destruct fuel as [|fuel]; cbn [sendBatchReq]; [done|].
  unfold groupKeysByRegion, fork. run.
  destruct (GroupKeysByRegion bo keys (world st)) as [[groups|err] w]; cbn [fst snd]; run;
    [|done].
  match goal with |- context [goAll ?f ?n ?xs ?s0] => destruct (goAll f n xs s0) end;
    try done. rewrite bind_run.
  match goal with |- context [collectBatchResults ?b ?t ?r ?e ?p ?s0] =>
    destruct (collectBatchResults b t r e p s0) as [[fe ps] s2| |] end; try done.
  rewrite ret_run. by intros [= <- ? ?].
Qed.

(** X16. [BatchDelete] returns exactly the error of [sendBatchReq] and
    panics or runs on exactly when [sendBatchReq] does: the merged response
    it inspects afterwards is always the empty batch-delete response, so its
    own body-missing and error-text branches are never taken. *)
Theorem BatchDelete_returns_first_error fuel c keys st :
  let bo := (NewBackofferWithVars rawkvMaxBackoff (world st)).1 in
  let st1 := {| world := (NewBackofferWithVars rawkvMaxBackoff (world st)).2;
                trace := trace st ++ [EvNewBackoffer rawkvMaxBackoff bo] |} in
  BatchDelete fuel c keys st =
  match sendBatchReq fuel c bo keys CmdRawBatchDelete st1 with
  | Done (_, err) s => Done err s
  | Panic s => Panic s
  | OutOfFuel s => OutOfFuel s
  end.
Proof.
  intros bo st1. unfold BatchDelete, newBackoffer. run. fold bo. fold st1.
  destruct (sendBatchReq fuel c bo keys CmdRawBatchDelete st1)
    as [[resp [err|]] s| |] eqn:Hsend; try done.
  apply sendBatchReq_delete_response in Hsend as ->. done.
Qed.

(** *** Construction and release *)

(** X22. When [pd.NewClient] fails, [NewClient] returns its error
    wrapped by [errors.WithStack], in the state [pd.NewClient] left.
    Otherwise it returns a client with the cluster ID the placement client
    reports, in non-atomic mode, so [CompareAndSwap] on it is refused until
    [SetAtomicForCAS(true)], which leaves the cluster ID alone; and
    [Close] on it closes the placement client, the region cache and the
    transport, in that order, and returns what the transport's [Close]
    returned. *)
Theorem NewClient_then_Close `{Placement W} pdAddrs security opts fuel key previousValue
    newValue st :
  match pd_NewClient pdAddrs security opts (world st) with
  | (Some cause, w) =>
      NewClient pdAddrs security opts st
        = Done (Err (errors_WithStack cause)) {| world := w; trace := trace st |}
  | (None, w) =>
      ∃ c,
        let st1 := {| world := (pd_GetClusterID w).2; trace := trace st |} in
        let closed := rpcClose (cacheClose (pdClose (world st1))) in
        NewClient pdAddrs security opts st = Done (Ok c) st1
        ∧ ClusterID c = (pd_GetClusterID w).1
        ∧ atomic c = false
        ∧ CompareAndSwap fuel c key previousValue newValue st1
          = Done (Err (errors_New "using CompareAndSwap without enable atomic mode")) st1
        ∧ CompareAndSwap fuel (SetAtomicForCAS true c) key previousValue [] st1
          = Done (Err (errors_New "empty value is not supported")) st1
        ∧ ClusterID (SetAtomicForCAS true c) = ClusterID c
        ∧ Close c st1
          = Done closed.1
              {| world := closed.2;
                 trace := trace st ++ [EvPdClose; EvCacheClose; EvRpcClose closed.1] |}
  end.
Proof.
  unfold NewClient.
  destruct (pd_NewClient pdAddrs security opts (world st)) as [[err|] w]; [done|].
  destruct (pd_GetClusterID w) as [id w']. eexists. cbn [fst snd world trace].
  split; [reflexivity|]. split; [done|]. split; [done|]. split; [done|].
  split; [done|]. split; [done|].
  unfold Close. cbn [pdClient regionCache rpcClient]. run. by rewrite <- !app_assoc.
Qed.

(** *** Range deletes at their edges *)

Lemma stepEnd_unbounded (locEnd : bytes) : stepEnd locEnd [] = [].
Proof.
  unfold stepEnd, minKey. destruct (decide (locEnd = [])); [done|].
  assert ((bytes_Compare locEnd [] <? 0) = false) as ->; [|done].
  apply Z.ltb_ge. destruct locEnd; cbn; lia.
Qed.

Lemma DeleteStep_unbounded bo startKey tr r :
  DeleteStep bo startKey [] tr r ->
  Forall (eq (deleteRangeRequest startKey [])) (requests tr)
  ∧ match r with Ok (_, actualEnd) => actualEnd = [] | Err _ => True end.
Proof.
  induction 1 as [e|loc e|loc resp e Hre|loc resp regionErr e Hre|loc resp Hre
                 |loc resp regionErr tr r Hre Hrun IH];
    unfold deleteRpc, sendEvent; rewrite ?stepEnd_unbounded; cbn;
    try (split; [repeat constructor | done]).
  destruct IH as [IH ?]. split; [by constructor | done].
Qed.

(** X17. [DeleteRange] with an empty end key and a non-empty start key
    performs a single step: it creates one back-offer, every request it
    sends asks for the range from the start key to the empty key, and it
    does not go on to a further region. *)
Theorem DeleteRange_unbounded_end fuel c startKey st r st' :
  startKey ≠ [] ->
  DeleteRange fuel c startKey [] st = Done r st' ->
  ∃ bo tr step,
    trace st' = trace st ++ EvNewBackoffer rawkvMaxBackoff bo :: tr
    ∧ DeleteStep bo startKey [] tr step
    ∧ Forall (eq (deleteRangeRequest startKey [])) (requests tr).
Proof.
  intros Hne. destruct fuel as [|fuel]; cbn [DeleteRange]; unfold bytes_Equal;
    rewrite bool_decide_eq_false_2 by done; [done|].
  unfold sendDeleteRangeReq, newBackoffer. run.
  match goal with |- context [sendDeleteRangeReq_loop ?f ?bo startKey [] ?s] =>
    pose proof (sendDeleteRangeReq_loop_step f bo startKey [] s) as Hs;
    destruct (sendDeleteRangeReq_loop f bo startKey [] s)
      as [[[resp actualEnd]|err] s1| |] end; try done;
    destruct (Hs _ _ eq_refl) as (tr & Htr & Hstep); cbn [trace] in Htr; clear Hs;
    destruct (DeleteStep_unbounded _ _ _ _ Hstep) as [Hreq Hend].
  - subst actualEnd. intros Hrest.
    assert (trace st' = trace s1) as ->.
    { destruct (Resp resp) as [[]|]; try done; [|by injection Hrest as <- <-].
      case_decide; [by injection Hrest as <- <-|].
      destruct fuel; cbn [DeleteRange] in Hrest; unfold bytes_Equal in Hrest;
        rewrite bool_decide_eq_true_2 in Hrest by done; by injection Hrest as <- <-. }
    eexists _, tr, _. rewrite Htr, <- app_assoc. done.
  - rewrite ret_run. intros [= <- <-].
    eexists _, tr, _. rewrite Htr, <- app_assoc. done.
Qed.


(** *** The tasks and the walk of the batched range delete *)

(** X18. A task of the batched range delete never looks up a location:
    every RPC it sends, retries included, carries the range and goes to
    the region it was given.  When it returns an error, that error was
    logged once, as the last thing the task did; when it returns nil,
    nothing was logged. *)
Theorem doBatchDeleteRangeReq_logs_errors fuel c bo request st r st' :
  doBatchDeleteRangeReq fuel c bo request st = Done r st' ->
  ∃ tr,
    trace st' = trace st ++ tr
    ∧ count isLookup tr = O
    ∧ Forall (eq (RawDeleteRangeRequest (StartKey request) (EndKey request),
                  Region request)) (rpcs tr)
    ∧ match r with
      | Some err => ∃ msg, logs tr = [(msg, err)] ∧ last tr = Some (EvLog msg err)
      | None => logs tr = []
      end.
Proof.
  revert st. induction fuel as [|fuel IH]; intros st; cbn [doBatchDeleteRangeReq]; [done|].
  unfold senderSendReq, backoff, logError, emit. run.
  destruct (SendReq bo _ (Region request) ReadTimeoutShort (world st)) as [[resp|err] w1];
    cbn [fst snd]; run.
  2:{ intros [= <- <-]. cbn [trace]. eexists; split; [by rewrite <- app_assoc|].
      cbn. split; [done|]. split; [by repeat constructor|]. by eexists. }
  destruct (GetRegionError resp) as [[regionErr|]|err] eqn:Hre; run.
  - destruct (Backoff bo BoRegionMiss _ w1) as [[err|] w2]; cbn [fst snd]; run.
    + intros [= <- <-]. cbn [trace]. eexists; split; [by rewrite <- !app_assoc|].
      cbn. split; [done|]. split; [by repeat constructor|]. by eexists.
    + intros Hrest. apply IH in Hrest as (tr & -> & Hlook & Hrpc & Hlog). cbn [trace].
      eexists; split; [by rewrite <- !app_assoc|].
      cbn. split; [done|]. split; [by constructor|].
      destruct r as [err|]; [|done]. destruct Hlog as (msg & Hlogs & Hlast).
      exists msg. split; [done|]. destruct tr as [|e tr]; [done|].
      by rewrite !last_cons_cons.
  - intros [= <- <-]. cbn [trace]. eexists; split; [done|].
    cbn. split; [done|]. split; [by repeat constructor|done].
  - intros [= <- <-]. cbn [trace]. eexists; split; [by rewrite <- app_assoc|].
    cbn. split; [done|]. split; [by repeat constructor|]. by eexists.
Qed.

Lemma BatchDeleteRange_loop_spins fuel c bo startKey endKey st :
  startKey ≠ endKey ->
  ∃ st' forks,
    BatchDeleteRange_loop fuel c bo startKey endKey 0 [] None st = OutOfFuel st'
    ∧ trace st' = trace st ++ forks
    ∧ Forall (λ e, isFork e = true) forks
    ∧ length forks = fuel.
Proof.
  intros Hne. revert st.
  induction fuel as [|fuel IH]; intros st; cbn [BatchDeleteRange_loop];
    unfold bytes_Equal; rewrite bool_decide_eq_false_2 by done.
  - exists st, []. by rewrite app_nil_r.
  - change (Z.to_nat 0) with O. rewrite bind_run. cbn [collectLocations].
    rewrite ret_run. unfold fork. run. cbn [length goAll]. run.
    cbn [catchFirstError]. run.
    match goal with |- context [BatchDeleteRange_loop fuel c bo _ _ 0 [] None ?s0] =>
      destruct (IH s0) as (st' & forks & -> & Htr & Hforks & Hlen) end.
    cbn [trace] in Htr. eexists st', (_ :: forks).
    split; [done|]. split; [by rewrite Htr, <- app_assoc|].
    split; [by constructor | by cbn; rewrite Hlen].
Qed.

(** X20. With distinct start and end keys, [BatchDeleteRange] does not
    return for a batch size of zero or less: a negative size panics in
    [make] right after the back-offer is created, and with size zero every
    iteration only forks the back-offer, sends nothing and leaves the start
    key where it was. *)
Theorem BatchDeleteRange_degenerate_batch_size fuel c startKey endKey batchSize st :
  batchSize <= 0 ->
  startKey ≠ endKey ->
  match BatchDeleteRange fuel c startKey endKey batchSize st with
  | Done _ _ => False
  | Panic st' =>
      batchSize < 0
      ∧ ∃ bo, trace st' = trace st ++ [EvNewBackoffer rawkvMaxBackoff bo]
  | OutOfFuel st' =>
      batchSize = 0
      ∧ ∃ bo forks,
          trace st' = trace st ++ EvNewBackoffer rawkvMaxBackoff bo :: forks
          ∧ Forall (λ e, isFork e = true) forks
          ∧ length forks = fuel
  end.
Proof.
  intros Hle Hne. unfold BatchDeleteRange, newBackoffer. run.
  destruct (batchSize <? 0) eqn:Hneg.
  - apply Z.ltb_lt in Hneg. split; [done|]. by eexists.
  - apply Z.ltb_ge in Hneg. assert (batchSize = 0) as -> by lia.
    rewrite bind_run. change (Z.to_nat 0) with O. cbn [replicate].
    match goal with |- context [BatchDeleteRange_loop fuel c ?b _ _ 0 [] None ?s0] =>
      destruct (BatchDeleteRange_loop_spins fuel c b startKey endKey s0 Hne)
        as (st' & forks & -> & Htr & Hforks & Hlen) end.
    split; [done|]. cbn [trace] in Htr. eexists _, forks.
    split; [by rewrite Htr, <- app_assoc|]. done.
Qed.


(** *** What the batched operations send *)

Lemma sends_requests (P : Request -> Prop) tr :
  Forall (sends (λ req _, P req)) tr -> Forall P (requests tr).
Proof.
  induction 1 as [|e tr He Htr IH]; [constructor|].
  destruct e; cbn in *; try done. by constructor.
Qed.

Lemma goAll_sends {T R} P (PT : T -> Prop) (run : T -> M W R) n xs st rs st' :
  Forall PT xs ->
  (∀ x s r s', PT x -> run x s = Done r s' ->
     ∃ tr, trace s' = trace s ++ tr ∧ Forall (sends P) tr) ->
  goAll run n xs st = Done rs st' ->
  ∃ tr, trace st' = trace st ++ tr ∧ Forall (sends P) tr.
Proof.
  intros Hxs Hrun. revert xs st rs st' Hxs.
  induction n as [|n IH]; intros xs st rs st' Hxs; cbn [goAll].
  - rewrite ret_run. intros [= <- <-]. exists []. by rewrite app_nil_r.
  - rewrite bind_run. unfold schedule.
    destruct (Schedule (length xs) (world st)) as [i w].
    set (j := if decide (i < length xs)%nat then i else O).
    destruct (xs !! j) as [x|] eqn:Hx.
    2:{ rewrite ret_run. intros [= <- <-]. exists []. by rewrite app_nil_r. }
    rewrite bind_run.
    destruct (run x _) as [r s1| |] eqn:Hr; try done.
    apply Hrun in Hr as (tr1 & Htr1 & Hq1).
    2:{ eapply Forall_lookup_1; eauto. }
    rewrite bind_run.
    destruct (goAll run n (delete j xs) s1) as [rs' s2| |] eqn:Hrest; try done.
    apply IH in Hrest as (tr2 & Htr2 & Hq2); [|by apply Forall_delete].
    rewrite ret_run. intros [= <- <-]. exists (tr1 ++ tr2).
    split; [by rewrite Htr2, Htr1, app_assoc | by apply Forall_app].
Qed.

Lemma catchFirstError_sends P bo es err st r st' :
  catchFirstError bo es err st = Done r st' ->
  ∃ tr, trace st' = trace st ++ tr ∧ Forall (sends P) tr.
Proof.
  destruct (catchFirstError_trace bo es err st) as (caught & s & -> & Htr).
  intros [= <- <-]. eexists; split; [done|]. by apply Forall_replicate.
Qed.


Lemma doBatchDeleteRangeReq_sends fuel c bo request st r st' :
  StartKey request = EndKey request ->
  doBatchDeleteRangeReq fuel c bo request st = Done r st' ->
  ∃ tr, trace st' = trace st ++ tr
        ∧ Forall (sends (λ req _, ∃ k, Req req = RawDeleteRangeRequest k k)) tr.
Proof.
  intros Hempty. revert st.
  induction fuel as [|fuel IH]; intros st; cbn [doBatchDeleteRangeReq]; [done|].
  unfold senderSendReq, backoff, logError, emit. run.
  destruct (SendReq bo _ (Region request) ReadTimeoutShort (world st)) as [[resp|err] w1];
    cbn [fst snd]; run.
  2:{ intros [= <- <-]. cbn [trace]. eexists; split; [by rewrite <- app_assoc|].
      repeat constructor. cbn. exists (EndKey request). by rewrite Hempty. }
  destruct (GetRegionError resp) as [[regionErr|]|err] eqn:Hre; run.
  - destruct (Backoff bo BoRegionMiss _ w1) as [[err|] w2]; cbn [fst snd]; run.
    + intros [= <- <-]. cbn [trace]. eexists; split; [by rewrite <- !app_assoc|].
      repeat constructor. cbn. exists (EndKey request). by rewrite Hempty.
    + intros Hrest. apply IH in Hrest as (tr & -> & Htr). cbn [trace].
      eexists; split; [by rewrite <- !app_assoc|].
      repeat constructor; [|done]. cbn. exists (EndKey request). by rewrite Hempty.
  - intros [= <- <-]. cbn [trace]. eexists; split; [done|].
    repeat constructor. cbn. exists (EndKey request). by rewrite Hempty.
  - intros [= <- <-]. cbn [trace]. eexists; split; [by rewrite <- app_assoc|].
    repeat constructor. cbn. exists (EndKey request). by rewrite Hempty.
Qed.

Lemma collectLocations_empty_ranges P n bo startKey endKey keyLocations st r st' :
  Forall (λ l, StartKey l = EndKey l) keyLocations ->
  collectLocations n bo startKey endKey keyLocations st = Done r st' ->
  (∃ tr, trace st' = trace st ++ tr ∧ Forall (sends P) tr)
  ∧ match r with
    | Ok (_, keyLocations') => Forall (λ l, StartKey l = EndKey l) keyLocations'
    | Err _ => True
    end.
Proof.
  revert startKey keyLocations st.
  induction n as [|n IH]; intros startKey keyLocations st Hkl; cbn [collectLocations].
  - rewrite ret_run. intros [= <- <-]. split; [|done]. exists []. by rewrite app_nil_r.
  - unfold locateKey. run.
    destruct (LocateKey bo startKey (world st)) as [[loc|e] w]; cbn [fst snd]; run.
    + destruct ((len (EndKey loc) >? 0) && _).
      * intros Hrest. apply IH in Hrest as [(tr & -> & Htr) Hr].
        2:{ apply Forall_app. split; [done|]. by repeat constructor. }
        split; [|done]. cbn [trace]. eexists; split; [by rewrite <- app_assoc|].
        by repeat constructor.
      * rewrite ret_run. intros [= <- <-]. split.
        -- eexists; split; [done|]. by repeat constructor.
        -- apply Forall_app. split; [done|]. by repeat constructor.
    + intros [= <- <-]. split; [|done]. eexists; split; [done|]. by repeat constructor.
Qed.

Lemma BatchDeleteRange_loop_empty_ranges fuel c bo startKey endKey batchSize keyLocations
    err0 st r st' :
  Forall (λ l, StartKey l = EndKey l) keyLocations ->
  BatchDeleteRange_loop fuel c bo startKey endKey batchSize keyLocations err0 st
    = Done r st' ->
  ∃ tr, trace st' = trace st ++ tr
        ∧ Forall (sends (λ req _, ∃ k, Req req = RawDeleteRangeRequest k k)) tr.
Proof.
  revert startKey keyLocations err0 st.
  induction fuel as [|fuel IH]; intros startKey keyLocations err0 st Hkl;
    cbn [BatchDeleteRange_loop]; destruct (bytes_Equal startKey endKey);
    try (rewrite ret_run; intros [= <- <-]; exists []; by rewrite app_nil_r); [done|].
  rewrite bind_run.
  destruct (collectLocations _ bo startKey endKey keyLocations st)
    as [[[start' locs]|e] s1| |] eqn:Hcol; try done;
    eapply collectLocations_empty_ranges in Hcol as [(tr1 & Htr1 & Hq1) Hlocs]; try done.
  2:{ rewrite ret_run. intros [= <- <-]. by exists tr1. }
  unfold fork. run.
  match goal with |- context [goAll ?f ?n ?xs ?s0] =>
    destruct (goAll f n xs s0) as [es s2| |] eqn:Hgo end; try done.
  eapply (goAll_sends _ _ _ _ _ _ _ _ Hlocs) in Hgo as (tr2 & Htr2 & Hq2).
  2:{ intros x s r0 s' Hx. rewrite bind_run, call_done, bind_run. cbn [fst snd].
      match goal with |- context [doBatchDeleteRangeReq ?f c ?b x ?s0] =>
        destruct (doBatchDeleteRangeReq f c b x s0) as [e s3| |] eqn:Htask end;
        try done.
      apply (doBatchDeleteRangeReq_sends _ _ _ _ _ _ _ Hx) in Htask as (tr & Heq & Htr).
      unfold cancel. run. intros [= <- <-]. cbn [trace] in *. rewrite Heq.
      eexists; split; [by rewrite <- !app_assoc|].
      apply Forall_cons; split; [done|]. apply Forall_app; split; [done|].
      by repeat constructor. }
  rewrite bind_run.
  match goal with |- context [catchFirstError ?b es err0 s2] =>
    destruct (catchFirstError_trace b es err0 s2) as (caught & s3 & -> & Htr3) end.
  cbn [trace] in Htr2.
  destruct caught as [e|];
    unfold logError, emit; run; intros Hrest;
    apply (IH _ _ _ _ Hlocs) in Hrest as (tr4 & Htr4 & Hq4); cbn [trace] in Htr4.
  all: rewrite Htr4, Htr3, Htr2, Htr1; (eexists; split; [by rewrite <- !app_assoc|]);
    repeat (apply Forall_app; split); try done;
    try (by apply Forall_replicate); by repeat constructor.
Qed.

Lemma last_lookup_app (tr1 tr2 : list Event) e :
  last (List.filter isLookup tr2) = Some e ->
  last (List.filter isLookup (tr1 ++ tr2)) = Some e.
Proof. intros Hlast. by rewrite List.filter_app, last_app, Hlast. Qed.

Lemma collectLocations_error n bo startKey endKey keyLocations st err st' :
  collectLocations n bo startKey endKey keyLocations st = Done (Err err) st' ->
  ∃ tr key, trace st' = trace st ++ tr
            ∧ last (List.filter isLookup tr) = Some (EvLocateKey bo key (Err err)).
Proof.
  revert startKey keyLocations st.
  induction n as [|n IH]; intros startKey keyLocations st; cbn [collectLocations]; [done|].
  unfold locateKey. run.
  destruct (LocateKey bo startKey (world st)) as [[loc|e] w]; cbn [fst snd]; run.
  - destruct ((len (EndKey loc) >? 0) && _); [|done].
    intros Hrest. apply IH in Hrest as (tr & key & -> & Hlast). cbn [trace].
    eexists _, key. split; [by rewrite <- app_assoc|]. by apply last_lookup_app.
  - intros [= <- <-]. by eexists _, startKey.
Qed.

Lemma BatchDeleteRange_loop_error fuel c bo startKey endKey batchSize keyLocations err0
    st err st' :
  Forall (λ l, StartKey l = EndKey l) keyLocations ->
  BatchDeleteRange_loop fuel c bo startKey endKey batchSize keyLocations err0 st
    = Done (Err err) st' ->
  ∃ tr key, trace st' = trace st ++ tr
            ∧ last (List.filter isLookup tr) = Some (EvLocateKey bo key (Err err)).
Proof.
  revert startKey keyLocations err0 st.
  induction fuel as [|fuel IH]; intros startKey keyLocations err0 st Hkl;
    cbn [BatchDeleteRange_loop]; destruct (bytes_Equal startKey endKey); try done.
  rewrite bind_run.
  destruct (collectLocations _ bo startKey endKey keyLocations st)
    as [[[start' locs]|e] s1| |] eqn:Hcol; try done.
  2:{ rewrite ret_run. intros [= <- <-]. by eapply collectLocations_error. }
  eapply (collectLocations_empty_ranges (λ _ _, True)) in Hcol
    as [(tr1 & Htr1 & _) Hlocs]; [|done].
  unfold fork. run.
  match goal with |- context [goAll ?f ?n ?xs ?s0] =>
    destruct (goAll f n xs s0) as [es s2| |] eqn:Hgo end; try done.
  eapply (goAll_sends (λ _ _, True) _ _ _ _ _ _ _ Hlocs) in Hgo as (tr2 & Htr2 & _).
  2:{ intros x s r0 s' Hx. rewrite bind_run, call_done, bind_run. cbn [fst snd].
      match goal with |- context [doBatchDeleteRangeReq ?f c ?b x ?s0] =>
        destruct (doBatchDeleteRangeReq f c b x s0) as [e s3| |] eqn:Htask end;
        try done.
      apply (doBatchDeleteRangeReq_sends _ _ _ _ _ _ _ Hx) in Htask as (tr & Heq & _).
      unfold cancel. run. intros [= <- <-]. cbn [trace] in *. rewrite Heq.
      eexists; split; [by rewrite <- !app_assoc|].
      apply Forall_forall. intros ev _. by destruct ev. }
  rewrite bind_run.
  match goal with |- context [catchFirstError ?b es err0 s2] =>
    destruct (catchFirstError_trace b es err0 s2) as (caught & s3 & -> & Htr3) end.
  cbn [trace] in Htr2.
  destruct caught as [e|];
    unfold logError, emit; run; intros Hrest;
    apply (IH _ _ _ _ Hlocs) in Hrest as (tr4 & key & Htr4 & Hlast); cbn [trace] in Htr4.
  all: rewrite Htr4, Htr3, Htr2, Htr1; eexists _, key;
    (split; [by rewrite <- !app_assoc|]).
  all: repeat first [apply last_lookup_app | rewrite app_comm_cons]; exact Hlast.
Qed.

(** X19. The only error [BatchDeleteRange] returns is the error of a
    failed [LocateKey] on the back-offer it created: the last location
    lookup of the call. *)
Theorem BatchDeleteRange_returns_lookup_errors fuel c startKey endKey batchSize st err st' :
  BatchDeleteRange fuel c startKey endKey batchSize st = Done (Some err) st' ->
  ∃ bo tr key,
    trace st' = trace st ++ EvNewBackoffer rawkvMaxBackoff bo :: tr
    ∧ last (List.filter isLookup tr) = Some (EvLocateKey bo key (Err err))
    ∧ EvLocateKey bo key (Err err) ∈ tr.
Proof.
  unfold BatchDeleteRange, newBackoffer. run.
  destruct (batchSize <? 0); [done|]. rewrite bind_run.
  match goal with |- context [BatchDeleteRange_loop fuel c ?b _ _ _ ?kl None ?s0] =>
    destruct (BatchDeleteRange_loop fuel c b startKey endKey batchSize kl None s0)
      as [[captured|e] s1| |] eqn:Hloop end; try done.
  rewrite ret_run. intros [= <- <-].
  apply BatchDeleteRange_loop_error in Hloop as (tr & key & Htr & Hlast);
    [|by apply Forall_replicate].
  cbn [trace] in Htr. eexists _, tr, key. split; [by rewrite Htr, <- app_assoc|].
  split; [done|]. apply last_Some_elem_of in Hlast.
  apply list_elem_of_In, List.filter_In in Hlast as [Hin _]. by apply list_elem_of_In.
Qed.

(** X21. Every request a returning [BatchDeleteRange] has sent is a
    delete-range request whose start key equals its end key. *)
Theorem BatchDeleteRange_sends_empty_ranges fuel c startKey endKey batchSize st r st' :
  BatchDeleteRange fuel c startKey endKey batchSize st = Done r st' ->
  ∃ tr, trace st' = trace st ++ tr
        ∧ Forall (λ req, ∃ k, Req req = RawDeleteRangeRequest k k) (requests tr).
Proof.
  unfold BatchDeleteRange, newBackoffer. run.
  destruct (batchSize <? 0); [done|]. rewrite bind_run.
  match goal with |- context [BatchDeleteRange_loop fuel c ?b _ _ _ ?kl None ?s0] =>
    destruct (BatchDeleteRange_loop fuel c b startKey endKey batchSize kl None s0)
      as [res s1| |] eqn:Hloop end; try done.
  apply BatchDeleteRange_loop_empty_ranges in Hloop as (tr & Htr & Hq).
  2:{ by apply Forall_replicate. }
  cbn [trace] in Htr.
  destruct res; rewrite ret_run; intros [= <- <-]; rewrite Htr;
    (eexists; split; [by rewrite <- app_assoc|]);
    apply sends_requests, Forall_cons; by split.
Qed.


Lemma collectBatchResults_sends P bo cmdType rs firstError pairs st r st' :
  collectBatchResults bo cmdType rs firstError pairs st = Done r st' ->
  ∃ tr, trace st' = trace st ++ tr ∧ Forall (sends P) tr.
Proof.
  intros Hrun. apply collectBatchResults_trace in Hrun as ->.
  eexists; split; [done|]. by apply Forall_replicate.
Qed.

Lemma doBatchReq_sends again c bo batch cmdType st r st' :
  (∀ bo ks s r s', again bo ks cmdType s = Done r s' ->
     ∃ tr, trace s' = trace s ++ tr
           ∧ Forall (sends (λ req _, batchRequest cmdType c req)) tr) ->
  doBatchReq_ again c bo batch cmdType st = Done r st' ->
  ∃ tr, trace st' = trace st ++ tr
        ∧ Forall (sends (λ req _, batchRequest cmdType c req)) tr.
Proof.
  intros Hrec. unfold doBatchReq_, senderSendReq, backoff.
  assert (Hreq : (cmdType = CmdRawBatchGet ∨ cmdType = CmdRawBatchDelete) ->
            batchRequest cmdType c
              (withMaxExecutionDurationMs MaxWriteExecutionTimeMs
                 (NewRequest cmdType
                    (if decide (cmdType = CmdRawBatchGet)
                     then RawBatchGetRequest (Keys batch)
                     else RawBatchDeleteRequest (Keys batch) (atomic c))))).
  { intros Hc. by exists (Keys batch). }
  rewrite bind_run.
  assert (Hc : cmdType = CmdRawBatchGet ∨ cmdType = CmdRawBatchDelete
               ∨ (cmdType ≠ CmdRawBatchGet ∧ cmdType ≠ CmdRawBatchDelete)).
  { destruct cmdType; auto. }
  destruct Hc as [->|[->|[? ?]]]; [| |by destruct cmdType].
  all: rewrite ret_run; run.
  all: match goal with |- context [SendReq ?b ?q ?rg ?t ?w0] =>
         destruct (SendReq b q rg t w0) as [[resp|err] w1] end; cbn [fst snd]; run.
  all: try (intros [= <- <-]; cbn [trace]; eexists; split; [done|];
            repeat constructor; apply Hreq; auto).
  all: destruct (GetRegionError resp) as [[regionErr|]|err]; run.
  all: try (intros [= <- <-]; cbn [trace]; eexists; split; [done|];
            repeat constructor; apply Hreq; auto).
  all: try match goal with |- context [Backoff ?b ?cfg ?e ?w0] =>
         destruct (Backoff b cfg e w0) as [[err|] w2] end; cbn [fst snd]; run.
  all: try (intros [= <- <-]; cbn [trace]; eexists; split; [by rewrite <- app_assoc|];
            repeat constructor; apply Hreq; auto).
  all: try match goal with
           | |- context [match ?m with Done _ _ => _ | Panic _ => _ | OutOfFuel _ => _ end] =>
               destruct m as [[resp' err'] s3| |] eqn:Hcall
           end; try done.
  all: try (apply Hrec in Hcall as (tr & Heq & Htr); rewrite ret_run;
            intros [= <- <-]; cbn [trace] in *; rewrite Heq;
            eexists; split; [by rewrite <- !app_assoc|];
            repeat (apply Forall_cons; split); try done; apply Hreq; auto).
  all: destruct (Resp resp) as [[]|]; try done;
       try match goal with |- context [decide ?P] => destruct (decide P) end; run.
  all: intros [= <- <-]; cbn [trace]; eexists; (split; [done|]);
       repeat constructor; apply Hreq; auto.
Qed.

Lemma sendBatchReq_sends fuel c bo keys cmdType st r st' :
  sendBatchReq fuel c bo keys cmdType st = Done r st' ->
  ∃ tr, trace st' = trace st ++ tr
        ∧ Forall (sends (λ req _, batchRequest cmdType c req)) tr.
Proof.
  revert bo keys st r st'.
  induction fuel as [|fuel IH]; intros bo keys st r st'; cbn [sendBatchReq]; [done|].
  unfold groupKeysByRegion, fork. run.
  destruct (GroupKeysByRegion bo keys (world st)) as [[groups|err] w]; cbn [fst snd]; run.
  2:{ intros [= <- <-]. eexists; split; [done|]. by repeat constructor. }
  match goal with |- context [goAll ?f ?n ?xs ?s0] =>
    destruct (goAll f n xs s0) as [rs s2| |] eqn:Hgo end; try done.
  eapply (goAll_sends _ (λ _, True)) in Hgo as (tr2 & Htr2 & Hq2);
    [|by apply Forall_true|].
  2:{ intros batch s r0 s' _. rewrite bind_run, call_done, bind_run. cbn [fst snd].
      match goal with |- context [doBatchReq_ ?f c ?b batch cmdType ?s0] =>
        destruct (doBatchReq_ f c b batch cmdType s0) as [res s3| |] eqn:Htask end;
        try done.
      apply (doBatchReq_sends _ _ _ _ _ _ _ _ (IH)) in Htask as (tr & Heq & Htr).
      unfold cancel. run. intros [= <- <-]. cbn [trace] in *. rewrite Heq.
      eexists; split; [by rewrite <- !app_assoc|].
      apply Forall_cons; split; [done|]. apply Forall_app; split; [done|].
      by repeat constructor. }
  rewrite bind_run.
  match goal with |- context [collectBatchResults ?b ?t rs ?e ?p s2] =>
    destruct (collectBatchResults b t rs e p s2) as [[fe ps] s3| |] eqn:Hcol end;
    try done.
  eapply collectBatchResults_sends in Hcol as (tr3 & Htr3 & Hq3).
  rewrite ret_run. intros [= <- <-]. cbn [trace] in Htr2. rewrite Htr3, Htr2.
  eexists; split; [by rewrite <- !app_assoc|].
  repeat (apply Forall_cons; split); try done.
  apply Forall_app; split; [|exact Hq3]. exact Hq2.
Qed.


(** X13. Every request a returning [sendBatchReq] has sent, re-planned
    batches included, is a request of the kind it was called for, carries
    the write-time budget (for a batch get as well) and, for a batch
    delete, the mode of the client. *)
Theorem sendBatchReq_requests fuel c bo keys cmdType st r st' :
  sendBatchReq fuel c bo keys cmdType st = Done r st' ->
  ∃ tr, trace st' = trace st ++ tr ∧ Forall (batchRequest cmdType c) (requests tr).
Proof.
  intros Hrun. apply sendBatchReq_sends in Hrun as (tr & Htr & Hq).
  exists tr. split; [done|]. by apply sends_requests.
Qed.

Lemma doBatchPut_sends again c bo batch st r st' :
  (∀ bo ks vs ts s r s', again bo ks vs ts s = Done r s' ->
     ∃ tr, trace s' = trace s ++ tr
           ∧ Forall (sends (λ req _, batchPutRequest c req)) tr) ->
  doBatchPut_ again c bo batch st = Done r st' ->
  ∃ tr, trace st' = trace st ++ tr
        ∧ Forall (sends (λ req _, batchPutRequest c req)) tr.
Proof.
  intros Hrec. unfold doBatchPut_, senderSendReq, backoff.
  destruct (kvPairs (Keys batch) 0 (Values batch)) as [kvPair|]; [|done]. run.
  assert (Hreq : batchPutRequest c
            (withMaxExecutionDurationMs MaxWriteExecutionTimeMs
               (NewRequest CmdRawBatchPut
                  (RawBatchPutRequest kvPair (atomic c) (TTLs batch)))))
    by (by eexists _, _).
  destruct (SendReq bo _ (RegionID batch) ReadTimeoutShort (world st)) as [[resp|err] w1];
    cbn [fst snd]; run.
  2:{ intros [= <- <-]. cbn [trace]. eexists; split; [done|]. by repeat constructor. }
  destruct (GetRegionError resp) as [[regionErr|]|err]; run.
  - destruct (Backoff bo BoRegionMiss _ w1) as [[err|] w2]; cbn [fst snd]; run.
    + intros [= <- <-]. cbn [trace]. eexists; split; [by rewrite <- app_assoc|].
      by repeat constructor.
    + intros Hcall. apply Hrec in Hcall as (tr & Heq & Htr). cbn [trace] in Heq.
      rewrite Heq. eexists; split; [by rewrite <- !app_assoc|].
      by repeat (apply Forall_cons; split).
  - destruct (Resp resp) as [[]|]; try done;
      try match goal with |- context [decide ?P] => destruct (decide P) end; run.
    all: intros [= <- <-]; cbn [trace]; eexists; (split; [done|]); by repeat constructor.
  - intros [= <- <-]. cbn [trace]. eexists; split; [done|]. by repeat constructor.
Qed.

Lemma sendBatchPut_sends fuel c bo keys values ttls st r st' :
  sendBatchPut fuel c bo keys values ttls st = Done r st' ->
  ∃ tr, trace st' = trace st ++ tr
        ∧ Forall (sends (λ req _, batchPutRequest c req)) tr.
Proof.
  revert bo keys values ttls st r st'.
  induction fuel as [|fuel IH]; intros bo keys values ttls st r st'; cbn [sendBatchPut];
    [done|].
  destruct (putMaps keys 0 values ttls ∅ ∅) as [[keyToValue keyTottl]|]; [|done].
  unfold groupKeysByRegion, fork. run.
  destruct (GroupKeysByRegion bo keys (world st)) as [[groups|err] w]; cbn [fst snd]; run.
  2:{ intros [= <- <-]. eexists; split; [done|]. by repeat constructor. }
  match goal with |- context [goAll ?f ?n ?xs ?s0] =>
    destruct (goAll f n xs s0) as [es s2| |] eqn:Hgo end; try done.
  eapply (goAll_sends _ (λ _, True)) in Hgo as (tr2 & Htr2 & Hq2);
    [|by apply Forall_true|].
  2:{ intros batch s r0 s' _. rewrite bind_run, call_done, bind_run. cbn [fst snd].
      match goal with |- context [doBatchPut_ ?f c ?b batch ?s0] =>
        destruct (doBatchPut_ f c b batch s0) as [res s3| |] eqn:Htask end;
        try done.
      apply (doBatchPut_sends _ _ _ _ _ _ _ IH) in Htask as (tr & Heq & Htr).
      unfold cancel. run. intros [= <- <-]. cbn [trace] in *. rewrite Heq.
      eexists; split; [by rewrite <- !app_assoc|].
      apply Forall_cons; split; [done|]. apply Forall_app; split; [done|].
      by repeat constructor. }
  intros Hcol. eapply catchFirstError_sends in Hcol as (tr3 & Htr3 & Hq3).
  cbn [trace] in Htr2. rewrite Htr3, Htr2.
  eexists; split; [by rewrite <- !app_assoc|].
  repeat (apply Forall_cons; split); try done.
  apply Forall_app; split; [|exact Hq3]. exact Hq2.
Qed.

(** X12. Every request a returning [BatchPut] has sent, re-planned
    batches included, is a batch-put request with the write-time budget,
    tagged with the mode of the client. *)
Theorem BatchPut_requests fuel c keys values ttls st r st' :
  BatchPut fuel c keys values ttls st = Done r st' ->
  ∃ tr, trace st' = trace st ++ tr ∧ Forall (batchPutRequest c) (requests tr).
Proof.
  unfold BatchPut.
  destruct (negb (len keys =? len values));
    [intros [= <- <-]; exists []; by rewrite app_nil_r|].
  destruct ((len ttls >? 0) && negb (len keys =? len ttls));
    [intros [= <- <-]; exists []; by rewrite app_nil_r|].
  match goal with |- context [existsb ?f values] => destruct (existsb f values) end;
    [intros [= <- <-]; exists []; by rewrite app_nil_r|].
  unfold newBackoffer. run. intros Hrun.
  apply sendBatchPut_sends in Hrun as (tr & Htr & Hq). cbn [trace] in Htr.
  rewrite Htr. eexists; split; [by rewrite <- app_assoc|].
  apply sends_requests, Forall_cons. by split.
Qed.

(** *** The limits a scan asks for *)

Lemma ScanWalk_request_limits endKey limit startKey keys values tr r :
  ScanWalk endKey limit startKey keys values tr r ->
  Forall (λ req, ∃ s n, req = scanRequest s endKey n ∧ 1 <= n <= limit) (requests tr).
Proof.
  induction 1 as [s k v Hstop|s k v bo tr resp loc re kvs Hc Hrun Hresp Hend
                 |s k v bo tr resp loc re kvs tr' r Hc Hrun Hresp Hend Hwalk IH
                 |s k v bo tr err Hc Hrun|s k v bo tr resp loc Hc Hrun Hresp];
    [constructor|..];
    change (requests (?e :: ?t)) with (requests t); rewrite ?requests_app;
    try (apply Forall_app; split; [|done]);
    apply sendReqRun_requests in Hrun;
    (eapply Forall_impl; [exact Hrun|]); intros req <-; exists s, (limit - len k);
    (split; [done|]); destruct Hc as [Hc _]; unfold len in *; lia.
Qed.

(** X4. Every request a returning forward scan has sent is a forward
    scan request up to the caller's end key whose limit is at least one and
    at most the caller's limit: the conversion to [uint32] never wraps. *)
Theorem Scan_request_limits fuel c startKey endKey limit st r st' :
  Scan fuel c startKey endKey limit st = Done r st' ->
  ∃ tr, trace st' = trace st ++ tr
        ∧ Forall (λ req, ∃ s n, req = scanRequest s endKey n ∧ 1 <= n <= limit)
            (requests tr).
Proof.
  unfold Scan. destruct (limit >? MaxRawKVScanLimit) eqn:Hlim.
  - rewrite ret_run. intros [= <- <-]. exists []. by rewrite app_nil_r.
  - intros Hrun. apply Scan_loop_walk in Hrun as (tr & Htr & Hwalk).
    2:{ rewrite Z.gtb_ltb in Hlim. apply Z.ltb_ge in Hlim. lia. }
    exists tr. split; [done|]. by eapply ScanWalk_request_limits.
Qed.

(** *** What a batch get returns *)

Lemma batchGetAnswers_app tr1 tr2 :
  batchGetAnswers (tr1 ++ tr2) = batchGetAnswers tr1 ++ batchGetAnswers tr2.
Proof. apply flat_map_app. Qed.

Lemma batchGetAnswers_cancels n bo : batchGetAnswers (replicate n (EvCancel bo)) = [].
Proof. by induction n. Qed.

Lemma collectBatchResults_get bo rs firstError pairs st firstError' pairs' st' :
  collectBatchResults bo CmdRawBatchGet rs firstError pairs st
    = Done (firstError', pairs') st' ->
  firstError' = None ->
  firstError = None ∧ omap Error_ rs = [] ∧ pairs' = pairs ++ flat_map resultPairs rs.
Proof.
  revert firstError pairs st.
  induction rs as [|[resp err] rs IH]; intros firstError pairs st;
    cbn [collectBatchResults Error_ Response_].
  - rewrite ret_run. intros [= <- <- <-] ->. by rewrite app_nil_r.
  - destruct err as [e|].
    + unfold cancel. run. intros Hrest Hnone.
      destruct (IH _ _ _ Hrest Hnone) as (Hfirst & _). by destruct firstError.
    + rewrite decide_True by done.
      destruct resp as [[[body|]]|]; try done. destruct body; try done.
      intros Hrest Hnone. destruct (IH _ _ _ Hrest Hnone) as (-> & Herr & ->).
      split; [done|]. split; [done|]. cbn. by rewrite <- app_assoc.
Qed.

Lemma goAll_answers {T} (run : T -> M W BatchResult) n xs st rs st' :
  (∀ x s r s', run x s = Done r s' ->
     ∃ tr, trace s' = trace s ++ tr
           ∧ (Error_ r = None -> batchGetAnswers tr = resultPairs r)) ->
  goAll run n xs st = Done rs st' ->
  ∃ tr, trace st' = trace st ++ tr
        ∧ (omap Error_ rs = [] -> batchGetAnswers tr = flat_map resultPairs rs).
Proof.
  intros Hrun. revert xs st rs st'.
  induction n as [|n IH]; intros xs st rs st'; cbn [goAll].
  - rewrite ret_run. intros [= <- <-]. exists []. by rewrite app_nil_r.
  - rewrite bind_run. unfold schedule.
    destruct (Schedule (length xs) (world st)) as [i w].
    set (j := if decide (i < length xs)%nat then i else O).
    destruct (xs !! j) as [x|] eqn:Hx.
    2:{ rewrite ret_run. intros [= <- <-]. exists []. by rewrite app_nil_r. }
    rewrite bind_run.
    destruct (run x _) as [r s1| |] eqn:Hr; try done.
    apply Hrun in Hr as (tr1 & Htr1 & Hq1).
    rewrite bind_run.
    destruct (goAll run n (delete j xs) s1) as [rs' s2| |] eqn:Hrest; try done.
    apply IH in Hrest as (tr2 & Htr2 & Hq2).
    rewrite ret_run. intros [= <- <-]. exists (tr1 ++ tr2).
    split; [by rewrite Htr2, Htr1, app_assoc|].
    intros Herr. rewrite batchGetAnswers_app. cbn in Herr |- *.
    destruct (Error_ r) as [e|] eqn:He; [done|]. by rewrite Hq1, Hq2.
Qed.

Lemma doBatchReq_get_answers again c bo batch st r st' :
  (∀ bo ks s r s', again bo ks CmdRawBatchGet s = Done r s' ->
     ∃ tr, trace s' = trace s ++ tr
           ∧ (r.2 = None ->
              ∃ pairs, r.1 = Some {| Resp := Some (RawBatchGetResponse None pairs) |}
                       ∧ pairs = batchGetAnswers tr)) ->
  doBatchReq_ again c bo batch CmdRawBatchGet st = Done r st' ->
  ∃ tr, trace st' = trace st ++ tr
        ∧ (Error_ r = None -> batchGetAnswers tr = resultPairs r).
Proof.
  intros Hrec. unfold doBatchReq_, senderSendReq, backoff. run.
  match goal with |- context [SendReq ?b ?q ?rg ?t ?w0] =>
    destruct (SendReq b q rg t w0) as [[resp|err] w1] end; cbn [fst snd]; run.
  2:{ intros [= <- <-]. cbn [trace]. by eexists. }
  destruct (GetRegionError resp) as [[regionErr|]|err] eqn:Hre; run.
  - destruct (Backoff bo BoRegionMiss _ w1) as [[err|] w2]; cbn [fst snd]; run.
    + intros [= <- <-]. cbn [trace]. eexists; split; [by rewrite <- app_assoc|]. done.
    + match goal with
      | |- context [match ?m with Done _ _ => _ | Panic _ => _ | OutOfFuel _ => _ end] =>
          destruct m as [[resp' err'] s3| |] eqn:Hcall
      end; try done.
      apply Hrec in Hcall as (tr & Heq & Hans). cbn [trace fst snd] in *.
      rewrite ret_run. intros [= <- <-]. rewrite Heq.
      eexists; split; [by rewrite <- !app_assoc|].
      cbn [Error_]. intros ->. destruct (Hans eq_refl) as (pairs & -> & ->).
      cbn. by rewrite Hre.
  - intros [= <- <-]. cbn [trace]. eexists; split; [done|]. intros _.
    cbn. rewrite Hre, app_nil_r. by destruct (Resp resp) as [[]|] eqn:Hbody; destruct resp;
      cbn in *; subst.
  - intros [= <- <-]. cbn [trace]. by eexists.
Qed.

Lemma sendBatchReq_get_answers fuel c bo keys st r st' :
  sendBatchReq fuel c bo keys CmdRawBatchGet st = Done r st' ->
  ∃ tr, trace st' = trace st ++ tr
        ∧ (r.2 = None ->
           ∃ pairs, r.1 = Some {| Resp := Some (RawBatchGetResponse None pairs) |}
                    ∧ pairs = batchGetAnswers tr).
Proof.
  revert bo keys st r st'.
  induction fuel as [|fuel IH]; intros bo keys st r st'; cbn [sendBatchReq]; [done|].
  unfold groupKeysByRegion, fork. run.
  destruct (GroupKeysByRegion bo keys (world st)) as [[groups|err] w]; cbn [fst snd]; run.
  2:{ intros [= <- <-]. by eexists. }
  match goal with |- context [goAll ?f ?n ?xs ?s0] =>
    destruct (goAll f n xs s0) as [rs s2| |] eqn:Hgo end; try done.
  apply goAll_answers in Hgo as (tr2 & Htr2 & Hans2).
  2:{ intros batch s r0 s'. rewrite bind_run, call_done, bind_run. cbn [fst snd].
      match goal with |- context [doBatchReq_ ?f c ?b batch CmdRawBatchGet ?s0] =>
        destruct (doBatchReq_ f c b batch CmdRawBatchGet s0) as [res s3| |] eqn:Htask end;
        try done.
      apply (doBatchReq_get_answers _ _ _ _ _ _ _ IH) in Htask as (tr & Heq & Hans).
      unfold cancel. run. intros [= <- <-]. cbn [trace] in *. rewrite Heq.
      eexists; split; [by rewrite <- !app_assoc|].
      intros Herr. rewrite !batchGetAnswers_app, (Hans Herr). cbn.
      by rewrite app_nil_r. }
  rewrite bind_run.
  match goal with |- context [collectBatchResults ?b ?t rs ?e ?p s2] =>
    destruct (collectBatchResults b t rs e p s2) as [[fe ps] s3| |] eqn:Hcol end;
    try done.
  pose proof (collectBatchResults_trace _ _ _ _ _ _ _ _ Hcol) as Htr3.
  rewrite ret_run. intros [= <- <-]. cbn [trace fst snd] in *. rewrite Htr3, Htr2.
  eexists; split; [by rewrite <- !app_assoc|].
  intros ->. destruct (collectBatchResults_get _ _ _ _ _ _ _ _ Hcol eq_refl)
    as (_ & Herr & ->).
  eexists; split; [reflexivity|].
  rewrite !batchGetAnswers_app, batchGetAnswers_cancels, (Hans2 Herr). cbn.
  by rewrite app_nil_r.
Qed.

(** C6. A successful [BatchGet] returns as many values as it was given
    keys.  The pairs it reads them from are the pairs the server returned:
    those of the batch-get responses that came back without a region
    error, for the batches as first planned and as planned again after a
    region error, each once.  The value at position [i] is the value of a
    pair the server returned for [keys[i]] (the last one merged, should
    there be several), and the nil value when the server returned no pair
    for that key.  Equal keys get equal values. *)
Theorem BatchGet_association fuel c (keys : list bytes) st (values : list bytes) st' :
  BatchGet fuel c keys st = Done (Ok values) st' ->
  ∃ tr pairs,
    trace st' = trace st ++ tr
    ∧ pairs ≡ₚ batchGetAnswers tr
    ∧ length values = length keys
    ∧ (∀ i key, keys !! i = Some key ->
         match lastPairFor key pairs with
         | Some p => p ∈ batchGetAnswers tr ∧ Key p = key ∧ values !! i = Some (Value p)
         | None => (∀ p, p ∈ batchGetAnswers tr -> Key p ≠ key) ∧ values !! i = Some []
         end)
    ∧ (∀ i j, keys !! i = keys !! j -> values !! i = values !! j).
Proof.
  unfold BatchGet, newBackoffer. run.
  match goal with |- context [sendBatchReq fuel c ?b keys CmdRawBatchGet ?s0] =>
    destruct (sendBatchReq fuel c b keys CmdRawBatchGet s0)
      as [[resp [err|]] s2| |] eqn:Hsend end; try done.
  apply sendBatchReq_get_answers in Hsend as (tr & Htr & Hans).
  destruct (Hans eq_refl) as (pairs & Hresp & Hpairs). cbn [fst snd trace] in *.
  subst resp. rewrite ret_run. intros [= Hv <-].
  assert (Hval : ∀ i key, keys !! i = Some key ->
            values !! i = Some (default [] (Value <$> lastPairFor key pairs))).
  { intros i key Hi. rewrite <- Hv, list_lookup_fmap, Hi. cbn.
    by rewrite pairsToMap_lookup. }
  eexists (_ :: tr), pairs. split; [by rewrite Htr, <- app_assoc|].
  change (batchGetAnswers (?e :: tr)) with (batchGetAnswers tr). rewrite <- Hpairs.
  split; [done|]. split; [by rewrite <- Hv, length_fmap|]. split.
  - intros i key Hi. pose proof (Hval i key Hi) as Hvi.
    destruct (lastPairFor key pairs) as [p|] eqn:Hp; cbn in Hvi.
    + apply lastPairFor_Some in Hp as [? ?]. auto.
    + split; [by apply lastPairFor_None | done].
  - intros i j Hij. by rewrite <- Hv, !list_lookup_fmap, Hij.
Qed.

End MoreProofs.

(** ** More scenarios on the scripted cluster *)

Lemma ReverseScan_walks_regions_witness :
  100 <= MaxRawKVScanLimit
  ∧ reverseScanRun = Done (Ok ([B "n"; B "c"], [B "2"; B "1"])) (final reverseScanRun)
  ∧ ∃ tr, trace (final reverseScanRun) = [] ++ tr
          ∧ ReverseWalk (B "a") 100 (B "z") [] [] tr
              (Ok ([B "n"; B "c"], [B "2"; B "1"])).
Proof.
  assert (Hlim : 100 <= MaxRawKVScanLimit) by (unfold MaxRawKVScanLimit; lia).
  assert (Hrun : reverseScanRun
                 = Done (Ok ([B "n"; B "c"], [B "2"; B "1"])) (final reverseScanRun))
    by (vm_compute; reflexivity).
  split; [exact Hlim|]. split; [exact Hrun|].
  exact (ReverseScan_walks_regions 5 client0 (B "z") (B "a") 100 _ _ _ Hlim Hrun).
Defined.

Lemma Scan_returns_answers_witness :
  retriedScanRun = Done (Ok ([B "a"; B "b"], [B "1"; B "2"])) (final retriedScanRun)
  ∧ ∃ tr, trace (final retriedScanRun) = [] ++ tr
          ∧ [B "a"; B "b"] = map Key (scanAnswers tr)
          ∧ [B "1"; B "2"] = map Value (scanAnswers tr)
          ∧ length [B "a"; B "b"] = length [B "1"; B "2"].
Proof.
  assert (Hrun : retriedScanRun
                 = Done (Ok ([B "a"; B "b"], [B "1"; B "2"])) (final retriedScanRun))
    by (vm_compute; reflexivity).
  split; [exact Hrun|].
  exact (Scan_returns_answers 5 client0 (B "a") (B "k") 100 _ _ _ _ Hrun).
Defined.

Lemma ReverseScan_returns_answers_witness :
  reverseScanRun = Done (Ok ([B "n"; B "c"], [B "2"; B "1"])) (final reverseScanRun)
  ∧ ∃ tr, trace (final reverseScanRun) = [] ++ tr
          ∧ [B "n"; B "c"] = map Key (scanAnswers tr)
          ∧ [B "2"; B "1"] = map Value (scanAnswers tr)
          ∧ length [B "n"; B "c"] = length [B "2"; B "1"].
Proof.
  assert (Hrun : reverseScanRun
                 = Done (Ok ([B "n"; B "c"], [B "2"; B "1"])) (final reverseScanRun))
    by (vm_compute; reflexivity).
  split; [exact Hrun|].
  exact (ReverseScan_returns_answers 5 client0 (B "z") (B "a") 100 _ _ _ _ Hrun).
Defined.

Lemma scan_of_empty_range_witness :
  1 <= MaxRawKVScanLimit
  ∧ Scan 0 client0 (B "a") (B "a") 1 (cluster [] []) = Done (Ok ([], [])) (cluster [] [])
  ∧ ReverseScan 0 client0 [] (B "x") 1 (cluster [] []) = Done (Ok ([], [])) (cluster [] []).
Proof.
  assert (Hlim : 1 <= MaxRawKVScanLimit) by (unfold MaxRawKVScanLimit; lia).
  destruct (scan_of_empty_range 0 client0 (B "a") (B "a") 1 (cluster [] []) Hlim)
    as (Hscan & _ & _).
  destruct (scan_of_empty_range 0 client0 (B "a") (B "x") 1 (cluster [] []) Hlim)
    as (_ & _ & Hreverse).
  split; [exact Hlim|]. split; [|exact Hreverse].
  apply Hscan; [discriminate | vm_compute; discriminate].
Defined.

Lemma Scan_request_limits_witness :
  scanRun = Done (Ok ([B "a"; B "n"], [B "1"; B "2"])) (final scanRun)
  ∧ requests (events scanRun) = [scanRequest (B "a") (B "z") 100;
                                 scanRequest (B "m") (B "z") 99]
  ∧ ∃ tr, trace (final scanRun) = [] ++ tr
          ∧ Forall (λ req, ∃ s n, req = scanRequest s (B "z") n ∧ 1 <= n <= 100)
              (requests tr).
Proof.
  assert (Hrun : scanRun = Done (Ok ([B "a"; B "n"], [B "1"; B "2"])) (final scanRun))
    by (vm_compute; reflexivity).
  split; [exact Hrun|]. split; [vm_compute; reflexivity|].
  exact (Scan_request_limits 5 client0 (B "a") (B "z") 100 _ _ _ Hrun).
Defined.

Lemma BatchPut_length_mismatch_witness :
  (len [B "a"; B "b"] ≠ len [B "1"]
   ∨ (len (@nil N) > 0 ∧ len [B "a"; B "b"] ≠ len (@nil N)))
  ∧ ∃ e, BatchPut 3 client0 [B "a"; B "b"] [B "1"] [] (cluster [] [])
         = Done (Some e) (cluster [] [])
         ∧ errorKind e = ArgumentError
         ∧ e = errors_New "the len of keys is not equal to the len of values".
Proof.
  assert (Hbad : len [B "a"; B "b"] ≠ len [B "1"]
                 ∨ (len (@nil N) > 0 ∧ len [B "a"; B "b"] ≠ len (@nil N)))
    by (left; vm_compute; discriminate).
  split; [exact Hbad|].
  exact (BatchPut_length_mismatch 3 client0 [B "a"; B "b"] [B "1"] [] (cluster [] []) Hbad).
Defined.

Lemma sendBatchPut_maps_witness :
  length [B "a"; B "b"; B "a"] = length [B "1"; B "2"; B "3"]
  ∧ ∃ keyToValue keyTottl,
      putMaps [B "a"; B "b"; B "a"] O [B "1"; B "2"; B "3"] [] ∅ ∅
        = Some (keyToValue, keyTottl)
      ∧ keyToValue !! B "a" = Some (B "3")
      ∧ keyTottl !! B "a" = None.
Proof.
  assert (Hlen : length [B "a"; B "b"; B "a"] = length [B "1"; B "2"; B "3"])
    by reflexivity.
  split; [exact Hlen|].
  destruct (sendBatchPut_maps [B "a"; B "b"; B "a"] [B "1"; B "2"; B "3"] [] Hlen
              (or_introl eq_refl)) as (kv & kt & Hmaps & Hkv & Hkt).
  exists kv, kt. split; [exact Hmaps|]. split.
  - rewrite (Hkv (B "a")). vm_compute. reflexivity.
  - rewrite (Hkt (B "a")). vm_compute. reflexivity.
Defined.

Lemma sendBatchPut_short_values_witness :
  (length [B "1"] < length [B "a"; B "b"])%nat
  ∧ sendBatchPut 1 client0 1%N [B "a"; B "b"] [B "1"] [] (cluster [] [])
    = Panic (cluster [] []).
Proof.
  assert (Hshort : (length [B "1"] < length [B "a"; B "b"])%nat) by (cbn; lia).
  split; [exact Hshort|].
  exact (sendBatchPut_short_values 0 client0 1%N [B "a"; B "b"] [B "1"] []
           (cluster [] []) Hshort).
Defined.

Lemma PutWithTTL_dispatch_witness :
  len (B "1") ≠ 0
  ∧ result putRun = Some None
  ∧ length (requests (events putRun)) = 2%nat
  ∧ ∃ tr, events putRun = [] ++ tr
          ∧ Forall (putRequestFor client0 (B "a") (B "1") 60) (requests tr)
          ∧ ∀ req, head (requests tr) = Some req ->
              req = NewRequest CmdRawPut (RawPutRequest (B "a") (B "1") 60 false).
Proof.
  assert (Hlen : len (B "1") ≠ 0) by (vm_compute; discriminate).
  split; [exact Hlen|]. split; [vm_compute; reflexivity|].
  split; [vm_compute; reflexivity|].
  destruct (PutWithTTL_dispatch 5 client0 (B "a") (B "1") 60%N
              (cluster [stalePut; put] [None]) Hlen) as (tr & Htr & Hreq & Hfirst & _).
  exists tr. split; [exact Htr|]. split; [exact Hreq | exact Hfirst].
Defined.

Lemma CompareAndSwap_dispatch_witness :
  atomic (SetAtomicForCAS true client0) = true
  ∧ len (B "v1") ≠ 0
  ∧ result casRun = Some (Ok ([], true))
  ∧ ∃ tr, events casRun = [] ++ tr
          ∧ Forall (eq (withMaxExecutionDurationMs MaxWriteExecutionTimeMs
                          (NewRequest CmdRawCompareAndSwap
                             (RawCASRequest (B "k") (B "v1") true []))))
              (requests tr).
Proof.
  assert (Hlen : len (B "v1") ≠ 0) by (vm_compute; discriminate).
  split; [reflexivity|]. split; [exact Hlen|]. split; [vm_compute; reflexivity|].
  destruct (CompareAndSwap_dispatch 5 (SetAtomicForCAS true client0) (B "k") None (B "v1")
              (cluster [Ok {| Resp := Some (RawCASResponse None "" true true []) |}] [])
              eq_refl Hlen) as (tr & Htr & Hreq & _).
  exists tr. split; [exact Htr | exact Hreq].
Defined.

Lemma sendReq_attempts_witness :
  result retriedSendRun
    = Some (Ok ({| Resp := Some (RawPutResponse None "") |},
                {| Region := region1; StartKey := []; EndKey := B "m" |}))
  ∧ ∃ tr, trace (final retriedSendRun) = [] ++ tr
          ∧ count isSend tr = count isLookup tr
          ∧ count isLookup tr = (count isBackoff tr + 1)%nat.
Proof.
  assert (Hrun : retriedSendRun
                 = Done (Ok ({| Resp := Some (RawPutResponse None "") |},
                             {| Region := region1; StartKey := []; EndKey := B "m" |}))
                     (final retriedSendRun)) by (vm_compute; reflexivity).
  split; [vm_compute; reflexivity|].
  destruct (sendReq_attempts 5 client0 (B "a") putRequest false _ _ _ Hrun)
    as (tr & Htr & _ & _ & Hok).
  exists tr. split; [exact Htr | exact Hok].
Defined.

Lemma collectBatchResults_merges_witness :
  collectRun = Done (Some (errors_WithStack givenUp), [pair "a" "1"; pair "n" "2"])
                 (final collectRun)
  ∧ trace (final collectRun) = [] ++ replicate 1 (EvCancel 2%N).
Proof.
  assert (Hrun : collectRun
                 = Done (Some (errors_WithStack givenUp), [pair "a" "1"; pair "n" "2"])
                     (final collectRun)) by (vm_compute; reflexivity).
  split; [exact Hrun|].
  destruct (collectBatchResults_merges 2%N CmdRawBatchGet channelResults None []
              (cluster [] []) _ _ _ Hrun) as (_ & _ & Htr).
  exact Htr.
Defined.

Lemma DeleteRange_unbounded_end_witness :
  B "a" ≠ []
  ∧ unboundedDeleteRun = Done None (final unboundedDeleteRun)
  ∧ rpcs (events unboundedDeleteRun) = [(RawDeleteRangeRequest (B "a") [], region1)]
  ∧ ∃ bo tr step,
      trace (final unboundedDeleteRun) = [] ++ EvNewBackoffer rawkvMaxBackoff bo :: tr
      ∧ DeleteStep bo (B "a") [] tr step
      ∧ Forall (eq (deleteRangeRequest (B "a") [])) (requests tr).
Proof.
  assert (Hne : B "a" ≠ []) by discriminate.
  assert (Hrun : unboundedDeleteRun = Done None (final unboundedDeleteRun))
    by (vm_compute; reflexivity).
  split; [exact Hne|]. split; [exact Hrun|]. split; [vm_compute; reflexivity|].
  exact (DeleteRange_unbounded_end 5 client0 (B "a") _ _ _ Hne Hrun).
Defined.

Lemma doBatchDeleteRangeReq_logs_errors_witness :
  taskRun = Done (Some givenUp) (final taskRun)
  ∧ logs (events taskRun) = [("backoff err", givenUp)]
  ∧ ∃ tr, trace (final taskRun) = [] ++ tr ∧ count isLookup tr = O.
Proof.
  assert (Hrun : taskRun = Done (Some givenUp) (final taskRun))
    by (vm_compute; reflexivity).
  split; [exact Hrun|]. split; [vm_compute; reflexivity|].
  destruct (doBatchDeleteRangeReq_logs_errors 5 client0 9%N _ _ _ _ Hrun)
    as (tr & Htr & Hlook & _).
  exists tr. split; [exact Htr | exact Hlook].
Defined.

Lemma BatchDeleteRange_returns_lookup_errors_witness :
  lostBatchDeleteRun
    = Done (Some (errors_New "region not found")) (final lostBatchDeleteRun)
  ∧ ∃ bo tr key,
      trace (final lostBatchDeleteRun) = [] ++ EvNewBackoffer rawkvMaxBackoff bo :: tr
      ∧ last (List.filter isLookup tr)
        = Some (EvLocateKey bo key (Err (errors_New "region not found")))
      ∧ EvLocateKey bo key (Err (errors_New "region not found")) ∈ tr.
Proof.
  assert (Hrun : lostBatchDeleteRun
                 = Done (Some (errors_New "region not found")) (final lostBatchDeleteRun))
    by (vm_compute; reflexivity).
  split; [exact Hrun|].
  exact (BatchDeleteRange_returns_lookup_errors 5 client0 (B "a") (B "z") 1 _ _ _ Hrun).
Defined.

Lemma BatchDeleteRange_degenerate_batch_size_witness :
  0 <= 0 ∧ B "a" ≠ B "z"
  ∧ result zeroBatchDeleteRun = None
  ∧ requests (events zeroBatchDeleteRun) = [].
Proof.
  assert (Hle : 0 <= 0) by lia.
  assert (Hne : B "a" ≠ B "z") by discriminate.
  pose proof (BatchDeleteRange_degenerate_batch_size 5 client0 (B "a") (B "z") 0
                (cluster [] []) Hle Hne) as Hspin.
  split; [exact Hle|]. split; [exact Hne|].
  unfold zeroBatchDeleteRun.
  destruct (BatchDeleteRange 5 client0 (B "a") (B "z") 0 (cluster [] []))
    as [r s|s|s] eqn:Hrun; [destruct Hspin|..].
  - split; [reflexivity|]. destruct Hspin as [Hneg _]. lia.
  - split; [reflexivity|]. vm_compute in Hrun. injection Hrun as <-. reflexivity.
Defined.

Lemma BatchDeleteRange_sends_empty_ranges_witness :
  batchDeleteRun = Done None (final batchDeleteRun)
  ∧ ∃ tr, trace (final batchDeleteRun) = [] ++ tr
          ∧ Forall (λ req, ∃ k, Req req = RawDeleteRangeRequest k k) (requests tr).
Proof.
  assert (Hrun : batchDeleteRun = Done None (final batchDeleteRun))
    by (vm_compute; reflexivity).
  split; [exact Hrun|].
  exact (BatchDeleteRange_sends_empty_ranges 5 client0 (B "a") (B "z") 1 _ _ _ Hrun).
Defined.

Lemma sendBatchReq_requests_witness :
  sendBatchRun = Done (Some {| Resp := Some (RawBatchDeleteResponse None "") |}, None)
                   (final sendBatchRun)
  ∧ ∃ tr, trace (final sendBatchRun) = [] ++ tr
          ∧ Forall (batchRequest CmdRawBatchDelete client0) (requests tr).
Proof.
  assert (Hrun : sendBatchRun
                 = Done (Some {| Resp := Some (RawBatchDeleteResponse None "") |}, None)
                     (final sendBatchRun)) by (vm_compute; reflexivity).
  split; [exact Hrun|].
  exact (sendBatchReq_requests 5 client0 1%N [B "a"; B "n"] CmdRawBatchDelete _ _ _ Hrun).
Defined.

Lemma BatchPut_requests_witness :
  batchPutRun = Done None (final batchPutRun)
  ∧ length (requests (events batchPutRun)) = 2%nat
  ∧ ∃ tr, trace (final batchPutRun) = [] ++ tr
          ∧ Forall (batchPutRequest client0) (requests tr).
Proof.
  assert (Hrun : batchPutRun = Done None (final batchPutRun)) by (vm_compute; reflexivity).
  split; [exact Hrun|]. split; [vm_compute; reflexivity|].
  exact (BatchPut_requests 5 client0 [B "a"; B "n"] [B "1"; B "2"] [] _ _ _ Hrun).
Defined.

Lemma BatchGet_association_witness :
  replannedBatchGetRun = Done (Ok [B "3"; B "1"; B "2"; []]) (final replannedBatchGetRun)
  ∧ batchGetAnswers (events replannedBatchGetRun)
    = [pair "z" "3"; pair "n" "2"; pair "a" "1"]
  ∧ ∃ tr pairs,
      trace (final replannedBatchGetRun) = [] ++ tr
      ∧ pairs ≡ₚ batchGetAnswers tr
      ∧ length [B "3"; B "1"; B "2"; []] = length [B "z"; B "a"; B "n"; B "x"]
      ∧ (∀ i key, [B "z"; B "a"; B "n"; B "x"] !! i = Some key ->
           match lastPairFor key pairs with
           | Some p => p ∈ batchGetAnswers tr ∧ Key p = key
                       ∧ [B "3"; B "1"; B "2"; []] !! i = Some (Value p)
           | None => (∀ p, p ∈ batchGetAnswers tr -> Key p ≠ key)
                     ∧ [B "3"; B "1"; B "2"; []] !! i = Some []
           end)
      ∧ (∀ i j, [B "z"; B "a"; B "n"; B "x"] !! i = [B "z"; B "a"; B "n"; B "x"] !! j ->
           [B "3"; B "1"; B "2"; []] !! i = [B "3"; B "1"; B "2"; []] !! j).
Proof.
  assert (Hrun : replannedBatchGetRun
                 = Done (Ok [B "3"; B "1"; B "2"; []]) (final replannedBatchGetRun))
    by (vm_compute; reflexivity).
  split; [exact Hrun|]. split; [vm_compute; reflexivity|].
  exact (BatchGet_association 5 client0 _ _ _ _ Hrun).
Defined.
